(** * tesuji::container_io: Python-like stream output for containers

    A shallow embedding of [include/tesuji/container_io.hpp] and the
    properties of its formatting engine.

    Texts are [string]s over [ascii]: the instantiation of the templates
    at [Char = Char2 = char].  A [std::string] may hold any character, NUL
    included; a [const char*] is read up to its first NUL.  Functions that
    write to a [std::basic_ostream] take the stream and give it back. *)

From Stdlib Require Import ZArith List String Ascii Bool Lia DecimalString.
Import ListNotations.
Open Scope string_scope.

(** ** Characters and C strings *)

Definition backslash : ascii := "\"%char.
Definition NUL : ascii := Ascii.zero.

(** [s.c_str()] read back as a C string: the characters before the first NUL. *)
Fixpoint c_str (s : string) : string :=
  match s with
  | EmptyString => EmptyString
  | String c s' => if Ascii.eqb c NUL then EmptyString else String c (c_str s')
  end.

Fixpoint mem_char (c : ascii) (s : string) : bool :=
  match s with
  | EmptyString => false
  | String c' s' => Ascii.eqb c c' || mem_char c s'
  end.

Fixpoint all_chars (p : ascii -> bool) (s : string) : bool :=
  match s with
  | EmptyString => true
  | String c s' => p c && all_chars p s'
  end.

(** ** The fragment of <regex> the header relies on

    Every regular expression the header builds is a concatenation of atoms
    that each consume exactly one character: a literal, or a bracket
    expression. *)

Module StdRegex.

Inductive class_item :=
| CChar (c : ascii)          (* a character listed in a bracket expression *)
| CSpace.                    (* the class escape \s *)

Inductive atom :=
| Lit (c : ascii)
| Class (items : list class_item).

Definition regex := list atom.

(** What constructing a [std::basic_regex] from a pattern does. *)
Inductive compiled :=
| Regex (r : regex)
| error_escape               (* std::regex_error: the pattern ends in a lone backslash *)
| outside_fragment.          (* a pattern this model does not read *)

(** isspace in the "C" locale. *)
Definition is_space (c : ascii) : bool :=
  let n := nat_of_ascii c in
  Nat.eqb n 32 || (Nat.leb 9 n && Nat.leb n 13).

Definition is_alnum (c : ascii) : bool :=
  let n := nat_of_ascii c in
  (Nat.leb 48 n && Nat.leb n 57) || (Nat.leb 65 n && Nat.leb n 90)
  || (Nat.leb 97 n && Nat.leb n 122).

(** The ECMAScript syntax characters. *)
Definition is_syntax_char (c : ascii) : bool := mem_char c "^$\.*+?()[]{}|".

(** ECMAScript pattern syntax, restricted to ordinary characters and
    identity escapes (a backslash before a character that is neither a
    letter nor a digit). *)
Fixpoint basic_regex (pattern : string) : compiled :=
  match pattern with
  | EmptyString => Regex []
  | String c rest =>
      if Ascii.eqb c backslash then
        match rest with
        | EmptyString => error_escape
        | String e rest' =>
            if is_alnum e then outside_fragment
            else match basic_regex rest' with
                 | Regex r => Regex (Lit e :: r)
                 | failure => failure
                 end
        end
      else if is_syntax_char c then outside_fragment
      else match basic_regex rest with
           | Regex r => Regex (Lit c :: r)
           | failure => failure
           end
  end.

Definition item_matches (i : class_item) (c : ascii) : bool :=
  match i with
  | CChar c' => Ascii.eqb c c'
  | CSpace => is_space c
  end.

Definition atom_matches (a : atom) (c : ascii) : bool :=
  match a with
  | Lit c' => Ascii.eqb c c'
  | Class items => existsb (fun i => item_matches i c) items
  end.

(** A match of [r] anchored at the start of [s]: the matched text and what
    follows it. *)
Fixpoint match_here (r : regex) (s : string) : option (string * string) :=
  match r with
  | [] => Some (EmptyString, s)
  | a :: r' =>
      match s with
      | EmptyString => None
      | String c s' =>
          if atom_matches a c then
            match match_here r' s' with
            | Some (m, rest) => Some (String c m, rest)
            | None => None
            end
          else None
      end
  end.

(** The default (ECMAScript) format rules, for the sequences the header
    uses: [$&] is the match, [$$] a dollar sign, every other character
    stands for itself. *)
Fixpoint format (fmt m : string) : string :=
  match fmt with
  | EmptyString => EmptyString
  | String c rest =>
      if Ascii.eqb c "$"%char then
        match rest with
        | String e rest' =>
            if Ascii.eqb e "&"%char then m ++ format rest' m
            else if Ascii.eqb e "$"%char then String "$"%char (format rest' m)
            else String c (format rest m)
        | EmptyString => String c EmptyString
        end
      else String c (format rest m)
  end.

(** The loop of [std::regex_replace]: leftmost matches, left to right,
    none overlapping; unmatched characters are copied.  An empty match is
    followed by one copied character.  [fuel] bounds the number of
    iterations; [regex_replace] supplies one more than the length of the
    text, which is never used up. *)
Fixpoint replace_loop (fuel : nat) (s : string) (re : regex) (fmt : string) : string :=
  match fuel with
  | O => s
  | S fuel' =>
      match match_here re s with
      | Some (String c m, rest) =>
          format fmt (String c m) ++ replace_loop fuel' rest re fmt
      | Some (EmptyString, _) =>
          format fmt EmptyString ++
          match s with
          | EmptyString => EmptyString
          | String c s' => String c (replace_loop fuel' s' re fmt)
          end
      | None =>
          match s with
          | EmptyString => EmptyString
          | String c s' => String c (replace_loop fuel' s' re fmt)
          end
      end
  end.

Definition regex_replace (s : string) (re : regex) (fmt : string) : string :=
  replace_loop (S (String.length s)) s re fmt.

End StdRegex.

Import StdRegex.

(** ** namespace tesuji *)

(** [detail::convert_string<Char, Char2>]: a copy, character by character;
    at [Char = Char2 = char] the same text. *)
Definition convert_string (value : string) : string := value.

(** The pattern of [regex_escape], one bracket expression: the characters
    - [ ] { } ( ) * + ? . , ^ $ | # and the class escape \s. *)
Definition specialChars : regex :=
  [Class [CChar "-"; CChar "["; CChar "]"; CChar "{"; CChar "}"; CChar "(";
          CChar ")"; CChar "*"; CChar "+"; CChar "?"; CChar "."; CChar ",";
          CChar "^"; CChar "$"; CChar "|"; CChar "#"; CSpace]].

(** The format string [\$&], the same in [regex_escape] and in
    [decorate_string]. *)
Definition replacement : string := "\$&".

Definition regex_escape (value : string) : string :=
  regex_replace value specialChars replacement.

(** ** Output streams

    Of the state of a [std::basic_ostream] the model keeps the characters
    written so far and the [boolalpha] flag, the formatting flag the
    header's notes call on.  The rest of the formatting state is as a
    stream is constructed: decimal base, no sign or base shown, no field
    width, the classic locale. *)

Record ostream := mk_ostream { boolalpha : bool; buffer : string }.

Definition write (os : ostream) (text : string) : ostream :=
  {| boolalpha := boolalpha os; buffer := buffer os ++ text |}.

(** [os << p] for [p : const char*]; every [os << x.c_str()] of the header. *)
Definition write_cstr (os : ostream) (s : string) : ostream := write os (c_str s).

(** [std::cout] as a program finds it: no flag set, nothing written. *)
Definition cout : ostream := {| boolalpha := false; buffer := "" |}.

(** What a formatting call leaves behind. *)
Inductive outcome :=
| Wrote (os : ostream)         (* returned normally *)
| Threw (os : ostream)         (* std::regex_error left the call *)
| Unmodelled.                  (* a delimiter pattern the regex fragment does not
                                  read, or a call that does not instantiate *)

Definition bind (o : outcome) (k : ostream -> outcome) : outcome :=
  match o with
  | Wrote os => k os
  | other => other
  end.

Notation "os <- o ;; k" := (bind o (fun os => k))
  (at level 61, o at next level, right associativity).

(** [os << n] for an integer. *)
Definition string_of_Z (z : Z) : string := NilZero.string_of_int (Z.to_int z).

(** [os << b] for a [bool]: words under [boolalpha], 1 and 0 otherwise. *)
Definition bool_text (alpha b : bool) : string :=
  if alpha then (if b then "true" else "false") else (if b then "1" else "0").

(** ** The values the operators accept *)

(** The class templates of the first [DEFINE_OSTREAM_OPERATOR]. *)
Inductive container_template :=
| std_vector | std_deque | std_forward_list | std_list
| std_set | std_multiset | std_unordered_set | std_unordered_multiset.

(** The class templates of the second [DEFINE_OSTREAM_OPERATOR]. *)
Inductive assoc_template :=
| std_map | std_multimap | std_unordered_map | std_unordered_multimap.

(** A container is the list of its elements in iteration order, an
    associative container the list of its key-value pairs.  In C++ the
    elements of a container share one type; nothing below relies on it.
    A tuple has at least one element: [decorate] of [std::tuple<>] does
    not instantiate.  [char] elements are left out for the same reason:
    they count as string-like and [decorate_string] has no overload for
    them.  [Other] stands for a value of any other type with an inserter
    of its own, which the trait does not know as string-like:
    [std::string_view], [char*], a user type; it carries the text that
    inserter writes. *)
Unset Elimination Schemes.
Inductive Value :=
| Int (z : Z)
| Bool (b : bool)
| CString (chars : string)                 (* const char* *)
| StdString (s : string)                   (* std::string *)
| Other (text : string)                    (* std::string_view, char*, a user type *)
| Container (T : container_template) (elems : list Value)
| Array (elems : list Value)               (* std::array<T, N> *)
| Tuple (first : Value) (rest : list Value)
| Pair (first second : Value)
| Assoc (T : assoc_template) (entries : list (Value * Value)).
Set Elimination Schemes.

(** Induction on values, with the hypotheses for the elements. *)
Section ValueInduction.
Variable P : Value -> Prop.
Hypothesis HInt : forall z, P (Int z).
Hypothesis HBool : forall b, P (Bool b).
Hypothesis HCString : forall chars, P (CString chars).
Hypothesis HStdString : forall s, P (StdString s).
Hypothesis HOther : forall text, P (Other text).
Hypothesis HContainer : forall T elems, Forall P elems -> P (Container T elems).
Hypothesis HArray : forall elems, Forall P elems -> P (Array elems).
Hypothesis HTuple : forall first rest, P first -> Forall P rest -> P (Tuple first rest).
Hypothesis HPair : forall first second, P first -> P second -> P (Pair first second).
Hypothesis HAssoc : forall T entries,
    Forall (fun kv => P (fst kv) /\ P (snd kv)) entries -> P (Assoc T entries).

Fixpoint Value_ind (value : Value) : P value :=
  let all := fix all (l : list Value) : Forall P l :=
    match l with
    | [] => Forall_nil P
    | v :: l' => Forall_cons v (Value_ind v) (all l')
    end in
  match value with
  | Int z => HInt z
  | Bool b => HBool b
  | CString chars => HCString chars
  | StdString s => HStdString s
  | Other text => HOther text
  | Container T elems => HContainer T elems (all elems)
  | Array elems => HArray elems (all elems)
  | Tuple first rest => HTuple first rest (Value_ind first) (all rest)
  | Pair first second => HPair first second (Value_ind first) (Value_ind second)
  | Assoc T entries =>
      HAssoc T entries
        ((fix all_kv (l : list (Value * Value))
            : Forall (fun kv => P (fst kv) /\ P (snd kv)) l :=
            match l with
            | [] => Forall_nil _
            | (k, v) :: l' =>
                Forall_cons (k, v) (conj (Value_ind k) (Value_ind v)) (all_kv l')
            end) entries)
  end.
End ValueInduction.

(** ** namespace tesuji::container_io *)

Module container_io.
Module detail.

Definition is_string_like_v (value : Value) : bool :=
  match value with
  | CString _ | StdString _ => true
  | _ => false
  end.

(** The function-local static [escapeRe], built from the pattern [\\]. *)
Definition escapeRe : regex := [Lit backslash].

(** The local [value] of [decorate_string] after both replacements. *)
Definition escaped_value (value : string) (delimRe : regex) : string :=
  let value := regex_replace value escapeRe replacement in
  regex_replace value delimRe replacement.

Definition decorate_string (os : ostream) (value stringDelimiter : string) : outcome :=
  let escapedStringDelimiter := regex_escape (convert_string stringDelimiter) in
  match basic_regex escapedStringDelimiter with
  | error_escape => Threw os
  | outside_fragment => Unmodelled
  | Regex delimRe =>
      let value := escaped_value value delimRe in
      let os := write_cstr os stringDelimiter in
      let os := write_cstr os value in
      let os := write_cstr os stringDelimiter in
      Wrote os
  end.

(** Overload resolution at a string-like element: [std::string] as it
    is, [const char*] through [std::string(value)]. *)
Definition decorate_string_of (os : ostream) (value : Value) (stringDelimiter : string)
  : outcome :=
  match value with
  | CString chars => decorate_string os (c_str chars) stringDelimiter
  | StdString s => decorate_string os s stringDelimiter
  | _ => Wrote os                           (* not string-like: never called *)
  end.

Section Elements.
(** [os << value] at the element type. *)
Variable insert : ostream -> Value -> outcome.

(** The [if constexpr] every loop body ends in. *)
Definition decorate_element (os : ostream) (value : Value) (stringDelimiter : string)
  : outcome :=
  if is_string_like_v value then decorate_string_of os value stringDelimiter
  else insert os value.

(** The range-for of [decorate], with [printValueSeparator] threaded
    through the iterations. *)
Fixpoint decorate_for (os : ostream) (container : list Value)
    (stringDelimiter valueSeparator : string) (printValueSeparator : bool) : outcome :=
  match container with
  | [] => Wrote os
  | value :: rest =>
      let os := if printValueSeparator then write_cstr os valueSeparator else os in
      os <- decorate_element os value stringDelimiter ;;
      decorate_for os rest stringDelimiter valueSeparator true
  end.

Definition decorate (os : ostream) (container : list Value)
    (containerDelimiters : string * string)
    (stringDelimiter valueSeparator : string) : outcome :=
  let os := write_cstr os (fst containerDelimiters) in
  os <- decorate_for os container stringDelimiter valueSeparator false ;;
  Wrote (write_cstr os (snd containerDelimiters)).

(** The index loop of the [std::array] overload, on the elements from
    index [i] on; [i < N] keeps [at(i)] in range. *)
Fixpoint decorate_array_for (os : ostream) (from_i : list Value)
    (stringDelimiter valueSeparator : string) (printValueSeparator : bool) : outcome :=
  match from_i with
  | [] => Wrote os
  | value :: rest =>
      let os := if printValueSeparator then write_cstr os valueSeparator else os in
      os <- decorate_element os value stringDelimiter ;;
      decorate_array_for os rest stringDelimiter valueSeparator true
  end.

Definition decorate_array (os : ostream) (container : list Value)
    (containerDelimiters : string * string)
    (stringDelimiter valueSeparator : string) : outcome :=
  let os := write_cstr os (fst containerDelimiters) in
  os <- decorate_array_for os container stringDelimiter valueSeparator false ;;
  Wrote (write_cstr os (snd containerDelimiters)).

(** [decorate_tuple<N>] on the elements from index [N] on; [std::get<N>]
    needs one to be there. *)
Fixpoint decorate_tuple (os : ostream) (from_N : list Value)
    (stringDelimiter valueSeparator : string) (printValueSeparator : bool) : outcome :=
  match from_N with
  | [] => Unmodelled
  | value :: rest =>
      let os := if printValueSeparator then write_cstr os valueSeparator else os in
      os <- decorate_element os value stringDelimiter ;;
      match rest with
      | [] => Wrote os                              (* N + 1 = sizeof...(Args) *)
      | _ :: _ => decorate_tuple os rest stringDelimiter valueSeparator true
      end
  end.

(** The [decorate] overload for [std::tuple]. *)
Definition decorate_std_tuple (os : ostream) (container : list Value)
    (containerDelimiters : string * string)
    (stringDelimiter valueSeparator : string) : outcome :=
  let os := write_cstr os (fst containerDelimiters) in
  os <- decorate_tuple os container stringDelimiter valueSeparator false ;;
  Wrote (write_cstr os (snd containerDelimiters)).

(** The range-for of [decorate_assoc] over the key-value pairs. *)
Fixpoint decorate_assoc_for (os : ostream) (container : list (Value * Value))
    (stringDelimiter valueSeparator keyValueSeparator : string)
    (printValueSeparator : bool) : outcome :=
  match container with
  | [] => Wrote os
  | (key, value) :: rest =>
      let os := if printValueSeparator then write_cstr os valueSeparator else os in
      os <- decorate_element os key stringDelimiter ;;
      let os := write_cstr os keyValueSeparator in
      os <- decorate_element os value stringDelimiter ;;
      decorate_assoc_for os rest stringDelimiter valueSeparator keyValueSeparator true
  end.

Definition decorate_assoc (os : ostream) (container : list (Value * Value))
    (containerDelimiters : string * string)
    (stringDelimiter valueSeparator keyValueSeparator : string) : outcome :=
  let os := write_cstr os (fst containerDelimiters) in
  os <- decorate_assoc_for os container stringDelimiter valueSeparator
                           keyValueSeparator false ;;
  Wrote (write_cstr os (snd containerDelimiters)).

End Elements.

End detail.

(** [operator<<]: the standard inserters for scalars and strings, the
    inserter of its own type for any other scalar, the overloads of the
    header for containers.  An element that is itself a container, a
    tuple or a pair is written by these overloads again; that takes a
    compiler which finds them from inside [detail::decorate], where they
    are not yet declared, and the properties of elements below are about
    scalars and strings. *)
Fixpoint operator_lshift (os : ostream) (container : Value) {struct container} : outcome :=
  match container with
  | Int z => Wrote (write os (string_of_Z z))
  | Bool b => Wrote (write os (bool_text (boolalpha os) b))
  | CString chars => Wrote (write_cstr os chars)
  | StdString s => Wrote (write os s)
  | Other text => Wrote (write os text)
  | Container _ elems =>
      detail.decorate operator_lshift os elems ("[", "]") "'" ", "
  | Array elems =>
      detail.decorate_array operator_lshift os elems ("[", "]") "'" ", "
  | Tuple first rest =>
      detail.decorate_std_tuple operator_lshift os (first :: rest) ("(", ")") "'" ", "
  | Pair first second =>
      (* os << std::tuple<First, Second>{container} *)
      detail.decorate_std_tuple operator_lshift os [first; second] ("(", ")") "'" ", "
  | Assoc _ entries =>
      detail.decorate_assoc operator_lshift os entries ("{", "}") "'" ", " ": "
  end.

End container_io.

Import container_io.
Import container_io.detail.

(** ** namespace tesuji::tracked (tracked.hpp)

    The table of allocations behind the tracked classes.  Addresses are
    numbers; how a stream shows a [void*] is implementation-defined and
    is a parameter. *)

Module tracked.

Record allocation := mk_allocation
  { address : Z; classname : string; counter : Z; deleted : bool }.

(** [std::find_if] over a range shown as a list: the position of the
    first element that satisfies [pred], [None] for the end iterator. *)
Fixpoint find_if {A : Type} (pred : A -> bool) (l : list A) : option nat :=
  match l with
  | [] => None
  | x :: l' => if pred x then Some 0 else option_map S (find_if pred l')
  end.

(** Assignment through an iterator at position [i]. *)
Fixpoint update_at {A : Type} (i : nat) (f : A -> A) (l : list A) : list A :=
  match l, i with
  | [], _ => []
  | x :: l', O => f x :: l'
  | x :: l', S j => x :: update_at j f l'
  end.

(** [std::cout << a << b << ...] *)
Definition writes (cout : ostream) (texts : list string) : ostream :=
  fold_left write texts cout.

Section Tracker.
(** [os << p] for [p : void*]. *)
Variable show_pointer : Z -> string.

Definition new_ (m_allocs : list allocation) (addr : Z) : list allocation :=
  m_allocs ++ [mk_allocation addr "" (-1) false].

(** The search runs over [rbegin()..rend()]: positions count from the
    back of [m_allocs].  The result holds the stream, the table and the
    returned flag. *)
Definition delete_ (cout : ostream) (m_allocs : list allocation) (addr : Z)
    (name : string) : ostream * list allocation * bool :=
  let reversed := rev m_allocs in
  match find_if (fun alloc => Z.eqb (address alloc) addr) reversed with
  | None =>
      (writes cout ["delete of unkown object "; name; "(0x"; show_pointer addr; ") "],
       m_allocs, false)
  | Some i =>
      match nth_error reversed i with
      | None => (cout, m_allocs, false)            (* not reached: [i] is in range *)
      | Some allocIt =>
          if deleted allocIt then
            (writes cout ["double delete of "; classname allocIt; "(0x";
                          show_pointer addr; ") "],
             m_allocs, false)
          else
            (cout,
             rev (update_at i (fun alloc => mk_allocation (address alloc) (classname alloc)
                                             (counter alloc) true) reversed),
             false)
      end
  end.

(** [None] stands for the failed [assert]. *)
Definition construct_ (m_allocs : list allocation) (addr : Z) (name : string) (n : Z)
  : option (list allocation) :=
  match find_if (fun alloc => Z.eqb (address alloc) addr) m_allocs with
  | None => Some m_allocs
  | Some i =>
      match nth_error m_allocs i with
      | None => Some m_allocs                      (* not reached: [i] is in range *)
      | Some allocIt =>
          if Z.eqb (counter allocIt) (-1) || Z.eqb (counter allocIt) n then
            Some (update_at i (fun alloc => mk_allocation (address alloc) name n
                                              (deleted alloc)) m_allocs)
          else None
      end
  end.

(** The loop of [~alloc_tracker]; [execOnlyOnce] tells whether the
    function-local static is initialised, that is whether the heading
    has been printed. *)
Fixpoint report (cout : ostream) (execOnlyOnce : bool) (allocs : list allocation)
  : ostream * bool :=
  match allocs with
  | [] => (cout, execOnlyOnce)
  | alloc :: rest =>
      if deleted alloc then report cout execOnlyOnce rest
      else
        let cout := if execOnlyOnce then cout else write cout "leaked objects: " in
        let cout := writes cout [classname alloc; string_of_Z (counter alloc); "(0x";
                                 show_pointer (address alloc); ") "] in
        report cout true rest
  end.

(** [~alloc_tracker] of the one tracker of a program. *)
Definition destructor (cout : ostream) (m_allocs : list allocation) : ostream :=
  fst (report cout false m_allocs).

(** [operator new] of a tracked class [C], [p] being what [malloc] gave. *)
Definition operator_new (cout : ostream) (m_allocs : list allocation) (p : Z) (C : string)
  : ostream * list allocation :=
  let m_allocs := new_ m_allocs p in
  (writes cout ["new("; c_str C; ") "], m_allocs).

(** [operator delete] of a tracked class [C]; the flag tells whether
    [free(p)] is called. *)
Definition operator_delete (cout : ostream) (m_allocs : list allocation) (p : Z)
    (C : string) : ostream * list allocation * bool :=
  let '(cout, m_allocs, toDelete) := delete_ cout m_allocs p (c_str C) in
  let cout := writes cout ["delete("; c_str C; ") "] in
  (cout, m_allocs, toDelete).

End Tracker.

(** What one leaked allocation adds to the report. *)
Definition leak_entry (show_pointer : Z -> string) (alloc : allocation) : string :=
  classname alloc ++ string_of_Z (counter alloc) ++ "(0x" ++ show_pointer (address alloc)
  ++ ") ".

(** The entry [delete_] finds for an address: the one allocated last. *)
Definition last_at (m_allocs : list allocation) (addr : Z) : option allocation :=
  find (fun alloc => Z.eqb (address alloc) addr) (rev m_allocs).

(** The allocations never deleted, in the order of their allocation. *)
Definition leaked (m_allocs : list allocation) : list allocation :=
  filter (fun alloc => negb (deleted alloc)) m_allocs.

(** The texts of a list, one after the other. *)
Definition joined (texts : list string) : string := fold_right append "" texts.

End tracked.

(** ** namespace tesuji::timed (timed.hpp)

    Durations are counts of ticks, of 64 bits in the header; the sums of
    [calls] are taken in [Z], and the theorems about them carry the
    condition that they fit. *)

Module timed.

(** Conversion of a signed 64-bit count to the unsigned type and back. *)
Definition to_unsigned (z : Z) : Z := (z mod 2 ^ 64)%Z.
Definition to_signed (u : Z) : Z :=
  (let u := u mod 2 ^ 64 in if u <? 2 ^ 63 then u else u - 2 ^ 64)%Z.

Record call_info := mk_call_info
  { name : string; count : nat; total : Z; avg : Z; min : Z; max : Z }.

Section Calls.
(** What [high_resolution_clock::now() - start] comes to around the call
    of [func] number [i], counted from 0. *)
Variable elapsed : nat -> Z.

(** The loop of [calls], at index [i] with [remaining] iterations to go. *)
Fixpoint calls_loop (i remaining : nat) (info : call_info) : call_info :=
  match remaining with
  | O => info
  | S remaining' =>
      let duration := elapsed i in
      calls_loop (S i) remaining'
        (mk_call_info (name info) (count info) (total info + duration)%Z (avg info)
                      (Z.min (min info) duration) (Z.max (max info) duration))
  end.

(** [info.total / info.count] divides a signed count by a [size_t]: the
    division is done in the unsigned type and the quotient converted
    back. *)
Definition calls (name : string) (count : nat) : call_info :=
  let info := mk_call_info name count 0 0 0 0 in
  if Nat.eqb count 0 then info
  else
    let first := elapsed 0 in
    let info := mk_call_info name count first 0 first first in
    let info := calls_loop 1 (count - 1) info in
    mk_call_info name count (total info)
                 (to_signed (to_unsigned (total info) / Z.of_nat count)%Z)
                 (min info) (max info).

End Calls.

(** The durations measured around the [count] calls, and their sum. *)
Definition measured (elapsed : nat -> Z) (count : nat) : list Z :=
  map elapsed (seq 0 count).
Definition sum (durations : list Z) : Z := fold_right Z.add 0%Z durations.

(** The duration types the header names. *)
Inductive period := nano | micro | milli | unit_seconds.

Definition ns_per (p : period) : Z :=
  match p with
  | nano => 1
  | micro => 1000
  | milli => 1000000
  | unit_seconds => 1000000000
  end.

(** [duration_cast] between these types truncates towards zero. *)
Definition duration_cast (from to : period) (ticks : Z) : Z :=
  Z.quot (ticks * ns_per from)%Z (ns_per to).

(** [{:f>w}] on a text: at least [width] characters, [fill] on the left. *)
Definition pad_left (fill : ascii) (width : nat) (s : string) : string :=
  string_of_list_ascii (repeat fill (width - String.length s)) ++ s.

Section Format.
(** The units suffix of microseconds is implementation-defined. *)
Variable micro_suffix : string.
(** [std::format("{:%T}", d)] for [d] in milliseconds. *)
Variable format_T : Z -> string.

Definition units_suffix (p : period) : string :=
  match p with
  | nano => "ns"
  | micro => micro_suffix
  | milli => "ms"
  | unit_seconds => "s"
  end.

(** [std::format("{}", d)]. *)
Definition format_duration (p : period) (ticks : Z) : string :=
  string_of_Z ticks ++ units_suffix p.

(** [durationToHumanString] for a duration of type [p]. *)
Definition durationToHumanString (p : period) (ticks : Z) : string :=
  let ns := (ticks * ns_per p)%Z in
  if (ns <? 1000)%Z then format_duration p ticks
  else if (ns <? 1000000)%Z then format_duration micro (duration_cast p micro ticks)
  else if (ns <? 1000000000)%Z then format_duration milli (duration_cast p milli ticks)
  else if (ns <? 60000000000)%Z then
    let secPart := duration_cast p unit_seconds ticks in
    let milliPart := Z.quot (ns - secPart * 1000000000)%Z 1000000 in
    string_of_Z secPart ++ "." ++ pad_left "0" 4 (string_of_Z milliPart) ++ "s"
  else format_T (duration_cast p milli ticks).

End Format.

(** The three decimal digits of a number below 1000. *)
Definition digit (n : Z) : ascii := ascii_of_nat (48 + Z.to_nat n).
Definition three_digits (n : Z) : string :=
  String (digit (n / 100)%Z)
    (String (digit (n / 10 mod 10)%Z) (String (digit (n mod 10)%Z) "")).

End timed.

(** ** The specification's side

    The rules of the design document as plain functions on texts, to
    compare the header against. *)

Module Spec.

(** String Escaper, one pass: every [c] becomes a backslash and [c]. *)
Fixpoint replace_char (c : ascii) (text : string) : string :=
  match text with
  | EmptyString => EmptyString
  | String x rest =>
      if Ascii.eqb x c then String backslash (String x (replace_char c rest))
      else String x (replace_char c rest)
  end.

(** String Escaper: the backslash first, the delimiter second. *)
Definition escape (delim : ascii) (text : string) : string :=
  replace_char delim (replace_char backslash text).

(** Modelled from the spec: the unescape rule of the Parser section (the
    header has no parser).  Left to right, a backslash followed by a
    backslash or by the delimiter stands for that character; a backslash
    followed by anything else, or by nothing, is a MalformedEscape
    ([None]). *)
Fixpoint unescape (delim : ascii) (text : string) : option string :=
  match text with
  | EmptyString => Some EmptyString
  | String c rest =>
      if Ascii.eqb c backslash then
        match rest with
        | EmptyString => None
        | String e rest' =>
            if Ascii.eqb e backslash || Ascii.eqb e delim
            then option_map (String e) (unescape delim rest')
            else None
        end
      else option_map (String c) (unescape delim rest)
  end.

(** Where a scan of formatted text stands with respect to strings. *)
Inductive scan_state := Outside | InString | AfterBackslash.

Definition is_open (c : ascii) : bool := mem_char c "[({".
Definition is_close (c : ascii) : bool := mem_char c "])}".

(** Occurrences of the value separator [", "] at depth 0: those that are
    neither inside a bracket pair opened in the scanned text nor inside a
    string.  A quote opens or closes a string, and a backslash inside a
    string hides the character after it. *)
Fixpoint count_separators (depth : nat) (st : scan_state) (s : string) : nat :=
  match s with
  | EmptyString => 0
  | String c rest =>
      match st with
      | AfterBackslash => count_separators depth InString rest
      | InString =>
          if Ascii.eqb c backslash then count_separators depth AfterBackslash rest
          else if Ascii.eqb c "'"%char then count_separators depth Outside rest
          else count_separators depth InString rest
      | Outside =>
          if Ascii.eqb c "'"%char then count_separators depth InString rest
          else if is_open c then count_separators (S depth) Outside rest
          else if is_close c then count_separators (Nat.pred depth) Outside rest
          else (if prefix ", " s && Nat.eqb depth 0 then 1 else 0)
               + count_separators depth Outside rest
      end
  end.

Definition separators_at_depth0 (inner : string) : nat :=
  count_separators 0 Outside inner.

End Spec.

(** ** What the header writes, in closed form *)

Module Text.

(** The characters of a string-like element. *)
Definition payload (value : Value) : string :=
  match value with
  | CString chars => c_str chars
  | StdString s => s
  | _ => EmptyString
  end.

(** A string between two copies of the delimiter, as the C-string writes
    of [decorate_string] show it. *)
Definition quoted (delim : ascii) (text : string) : string :=
  c_str (String delim EmptyString) ++ c_str (Spec.escape delim text)
  ++ c_str (String delim EmptyString).

(** What a loop appends once its flag is set: the separator in front of
    every text. *)
Definition tail (sep : string) (texts : list string) : string :=
  match texts with
  | [] => EmptyString
  | _ :: _ => sep ++ concat sep texts
  end.

Section Elements.
Variable text : Value -> string.

(** A string-like element goes through the escaper, any other is shown
    by its own text. *)
Definition element (delim : ascii) (value : Value) : string :=
  if is_string_like_v value then quoted delim (payload value) else text value.

(** Key, key-value separator, value. *)
Definition entry (delim : ascii) (keyValueSeparator : string) (kv : Value * Value)
  : string :=
  element delim (fst kv) ++ keyValueSeparator ++ element delim (snd kv).
End Elements.

(** The text [operator<<] appends for a value: brackets for every
    template of the first macro and for arrays, braces for the templates
    of the second macro, parentheses for tuples and pairs. *)
Fixpoint text (alpha : bool) (value : Value) {struct value} : string :=
  match value with
  | Int z => string_of_Z z
  | Bool b => bool_text alpha b
  | CString chars => c_str chars
  | StdString s => s
  | Other text => text
  | Container _ elems | Array elems =>
      "[" ++ concat ", " (map (element (text alpha) "'") elems) ++ "]"
  | Tuple first rest =>
      "(" ++ concat ", " (map (element (text alpha) "'") (first :: rest)) ++ ")"
  | Pair first second =>
      "(" ++ concat ", " (map (element (text alpha) "'") [first; second]) ++ ")"
  | Assoc _ entries =>
      "{" ++ concat ", " (map (entry (text alpha) "'" ": ") entries) ++ "}"
  end.

End Text.

(** ** Notions used in the proofs *)

(** What [regex_replace] with the format [\$&] does for a pattern of a
    single atom: a backslash goes in front of every character the atom
    matches. *)
Fixpoint escape_where (p : ascii -> bool) (s : string) : string :=
  match s with
  | EmptyString => EmptyString
  | String c s' =>
      if p c then String backslash (String c (escape_where p s'))
      else String c (escape_where p s')
  end.

(** [insert] appends the text [txt] gives for [v], whatever the stream
    already holds. *)
Definition appends (insert : ostream -> Value -> outcome) (txt : bool -> Value -> string)
    (v : Value) : Prop :=
  forall os : ostream, insert os v = Wrote (write os (txt (boolalpha os) v)).

(** A text the scan passes over without counting and without changing
    depth or state, whatever comes after it. *)
Definition neutral (e : string) : Prop :=
  forall depth k,
    Spec.count_separators depth Spec.Outside (e ++ k)
    = Spec.count_separators depth Spec.Outside k.

(** Characters that mean nothing to the scan outside a string. *)
Definition plain (c : ascii) : bool := negb (mem_char c "'[({])},").


(** The characters [regex_escape] puts a backslash in front of. *)
Definition special (c : ascii) : bool :=
  existsb (fun a => atom_matches a c) specialChars.



(** Values that are not containers, tuples or pairs. *)
Definition scalar (value : Value) : bool :=
  match value with
  | Int _ | Bool _ | CString _ | StdString _ | Other _ => true
  | _ => false
  end.

(** Scalars whose text as an element cannot be taken for structure:
    strings, which are quoted and escaped, numbers and booleans, and
    other scalars whose own text holds no quote, bracket or comma. *)
Definition unambiguous (value : Value) : bool :=
  match value with
  | Int _ | Bool _ | CString _ | StdString _ => true
  | Other text => all_chars plain text
  | _ => false
  end.






(** * Properties *)

(** ** Texts *)

Lemma append_assoc (a b c : string) : (a ++ b) ++ c = a ++ b ++ c.
Proof. induction a as [|x a IH]; simpl; [reflexivity | now rewrite IH]. Qed.

Lemma append_nil_r (a : string) : a ++ "" = a.
Proof. induction a as [|x a IH]; simpl; [reflexivity | now rewrite IH]. Qed.

Lemma c_str_no_NUL (s : string) : mem_char NUL s = false -> c_str s = s.
Proof.
  induction s as [|c s IH]; cbn [mem_char c_str]; [reflexivity|].
  rewrite (Ascii.eqb_sym NUL c).
  destruct (Ascii.eqb c NUL); cbn [orb]; [discriminate|].
  intros H. now rewrite IH.
Qed.

Lemma c_str_char (d : ascii) : d <> NUL -> c_str (String d "") = String d "".
Proof.
  intros H. cbn [c_str]. destruct (Ascii.eqb_spec d NUL); [contradiction | reflexivity].
Qed.

(** ** Regular expressions *)

Lemma escapeRe_pattern : basic_regex "\\" = Regex escapeRe.
Proof. reflexivity. Qed.

Example regex_escape_example : regex_escape "a.b c[" = "a\.b\ c\[".
Proof. reflexivity. Qed.

Lemma match_here_length (r : regex) :
  forall s m rest,
    match_here r s = Some (m, rest) ->
    String.length s = String.length m + String.length rest.
Proof.
  induction r as [|a r IH]; intros s m rest H; cbn [match_here] in H.
  - now injection H as <- <-.
  - destruct s as [|c s]; [discriminate|].
    destruct (atom_matches a c); [|discriminate].
    destruct (match_here r s) as [[m' rest']|] eqn:E; [|discriminate].
    injection H as <- <-. cbn [String.length]. now rewrite (IH _ _ _ E).
Qed.

(** The loop of [regex_replace] never runs out of iterations: more fuel
    changes nothing. *)
Lemma regex_replace_fuel (re : regex) (fmt : string) :
  forall fuel s,
    String.length s < fuel -> replace_loop fuel s re fmt = regex_replace s re fmt.
Proof.
  assert (H : forall fuel s fuel',
             String.length s < fuel -> String.length s < fuel' ->
             replace_loop fuel s re fmt = replace_loop fuel' s re fmt).
  { induction fuel as [|fuel IH]; intros s [|fuel'] Hf Hf'; try lia.
    cbn [replace_loop].
    destruct (match_here re s) as [[[|c m] rest]|] eqn:E.
    - destruct s as [|x s]; [reflexivity|]. cbn [String.length] in *.
      do 2 f_equal. apply IH; lia.
    - apply match_here_length in E. cbn [String.length] in E.
      f_equal. apply IH; lia.
    - destruct s as [|x s]; [reflexivity|]. cbn [String.length] in *.
      f_equal. apply IH; lia. }
  intros fuel s Hf. unfold regex_replace. apply H; lia.
Qed.

Lemma replace_loop_atom (a : atom) (s : string) :
  forall fuel, String.length s < fuel ->
    replace_loop fuel s [a] replacement = escape_where (atom_matches a) s.
Proof.
  induction s as [|c s IH]; intros [|fuel] Hfuel; simpl in Hfuel; try lia.
  - reflexivity.
  - cbn [replace_loop match_here escape_where].
    destruct (atom_matches a c).
    + cbn. f_equal. f_equal. apply IH. lia.
    + f_equal. apply IH. lia.
Qed.

Lemma regex_replace_atom (a : atom) (s : string) :
  regex_replace s [a] replacement = escape_where (atom_matches a) s.
Proof. unfold regex_replace. apply replace_loop_atom. lia. Qed.

Lemma escape_where_replace_char (c : ascii) (s : string) :
  escape_where (atom_matches (Lit c)) s = Spec.replace_char c s.
Proof. induction s as [|x s IH]; simpl; [reflexivity | now rewrite IH]. Qed.

Lemma regex_replace_Lit (c : ascii) (s : string) :
  regex_replace s [Lit c] replacement = Spec.replace_char c s.
Proof. now rewrite regex_replace_atom, escape_where_replace_char. Qed.

(** The pattern built for a delimiter of one character other than the
    backslash matches that character and nothing else. *)
Lemma delimRe_char (d : ascii) :
  d <> backslash -> basic_regex (regex_escape (String d "")) = Regex [Lit d].
Proof.
  destruct d as [[] [] [] [] [] [] [] []]; intros H;
    solve [ vm_compute; reflexivity | exfalso; apply H; reflexivity ].
Qed.

Lemma delimRe_backslash : basic_regex (regex_escape (String backslash "")) = error_escape.
Proof. reflexivity. Qed.

Lemma escaped_value_char (d : ascii) (value : string) :
  escaped_value value [Lit d] = Spec.escape d value.
Proof.
  unfold escaped_value, escapeRe, Spec.escape. now rewrite !regex_replace_Lit.
Qed.

Lemma decorate_string_char (os : ostream) (value : string) (d : ascii) :
  d <> backslash ->
  decorate_string os value (String d "") = Wrote (write os (Text.quoted d value)).
Proof.
  intros H. unfold decorate_string, convert_string. rewrite (delimRe_char d H).
  rewrite escaped_value_char. unfold write_cstr, write, Text.quoted. simpl buffer.
  simpl boolalpha. now rewrite !append_assoc.
Qed.

(** With the backslash as delimiter the pattern handed to
    [std::basic_regex] is a lone backslash, and the constructor throws
    before anything is written. *)
Lemma decorate_string_backslash_delimiter (os : ostream) (value : string) :
  decorate_string os value (String backslash "") = Threw os.
Proof. reflexivity. Qed.

(** ** Unescaping what the escaper wrote *)

(** With the backslash as delimiter the two rules do not invert each
    other even on paper: one backslash is escaped to four and unescaped
    to two. *)
Example unescape_escape_backslash_delimiter :
  Spec.unescape backslash (Spec.escape backslash "\") = Some "\\".
Proof. reflexivity. Qed.

Lemma unescape_escape (d : ascii) (text : string) :
  d <> backslash -> Spec.unescape d (Spec.escape d text) = Some text.
Proof.
  intros Hd. unfold Spec.escape.
  induction text as [|x text IH]; [reflexivity|].
  cbn [Spec.replace_char].
  destruct (Ascii.eqb_spec x backslash) as [->|Hx].
  - cbn [Spec.replace_char].
    destruct (Ascii.eqb_spec backslash d) as [E|_]; [congruence|].
    cbn [Spec.unescape]. rewrite !Ascii.eqb_refl. cbn [orb].
    now rewrite IH.
  - cbn [Spec.replace_char].
    destruct (Ascii.eqb_spec x d) as [->|Hxd].
    + cbn [Spec.unescape]. rewrite !Ascii.eqb_refl, orb_true_r.
      now rewrite IH.
    + cbn [Spec.unescape].
      destruct (Ascii.eqb_spec x backslash); [contradiction|].
      now rewrite IH.
Qed.

(** ** Streams *)

Lemma write_write (os : ostream) (a b : string) :
  write (write os a) b = write os (a ++ b).
Proof. unfold write; simpl. now rewrite append_assoc. Qed.

Lemma write_empty (os : ostream) : write os "" = os.
Proof. destruct os; unfold write; simpl. now rewrite append_nil_r. Qed.

Lemma boolalpha_write (os : ostream) (a : string) : boolalpha (write os a) = boolalpha os.
Proof. reflexivity. Qed.

Lemma write_inj (os : ostream) (a b : string) : write os a = write os b -> a = b.
Proof.
  unfold write. intros H. injection H as H. clear -H.
  induction (buffer os) as [|c s IH]; simpl in H; [assumption|].
  injection H as H. auto.
Qed.

Lemma Wrote_write_inj (os : ostream) (a b : string) :
  Wrote (write os a) = Wrote (write os b) -> a = b.
Proof. intros H. apply (write_inj os). congruence. Qed.

(** ** The loops in closed form *)

Section Loops.
Variable insert : ostream -> Value -> outcome.
Variable txt : bool -> Value -> string.
Variable d : ascii.
Hypothesis Hd : d <> backslash.
Variable vs : string.

Lemma decorate_element_text (os : ostream) (v : Value) :
  appends insert txt v ->
  decorate_element insert os v (String d "")
  = Wrote (write os (Text.element (txt (boolalpha os)) d v)).
Proof.
  intros Hv. unfold decorate_element, Text.element.
  destruct v; cbn [is_string_like_v]; try apply Hv;
    cbn [decorate_string_of Text.payload]; now apply decorate_string_char.
Qed.

Lemma concat_cons (sep x : string) (xs : list string) :
  concat sep (x :: xs) = x ++ Text.tail sep xs.
Proof. destruct xs; cbn; [now rewrite append_nil_r | reflexivity]. Qed.

Lemma decorate_for_text (l : list Value) :
  Forall (appends insert txt) l ->
  forall os,
    decorate_for insert os l (String d "") vs true
    = Wrote (write os (Text.tail (c_str vs) (map (Text.element (txt (boolalpha os)) d) l)))
    /\ decorate_for insert os l (String d "") vs false
       = Wrote (write os (concat (c_str vs) (map (Text.element (txt (boolalpha os)) d) l))).
Proof.
  induction 1 as [|v l Hv Hl IH]; intros os.
  - cbn. now rewrite write_empty.
  - cbn [decorate_for]. unfold write_cstr.
    rewrite !decorate_element_text by assumption. cbn [bind].
    rewrite !(proj1 (IH _)), !write_write, !boolalpha_write.
    cbn [map Text.tail]. rewrite !concat_cons. split; reflexivity.
Qed.

Lemma decorate_text (l : list Value) (os : ostream) (cd : string * string) :
  Forall (appends insert txt) l ->
  decorate insert os l cd (String d "") vs
  = Wrote (write os (c_str (fst cd)
                     ++ concat (c_str vs) (map (Text.element (txt (boolalpha os)) d) l)
                     ++ c_str (snd cd))).
Proof.
  intros Hl. unfold decorate, write_cstr.
  rewrite (proj2 (decorate_for_text l Hl _)). cbn [bind].
  now rewrite !write_write, boolalpha_write.
Qed.

Lemma decorate_array_for_eq (l : list Value) :
  forall os flag,
    decorate_array_for insert os l (String d "") vs flag
    = decorate_for insert os l (String d "") vs flag.
Proof.
  induction l as [|v l IH]; intros os flag; [reflexivity|].
  cbn [decorate_array_for decorate_for].
  destruct (decorate_element insert _ v _); cbn [bind]; auto.
Qed.

Lemma decorate_array_text (l : list Value) (os : ostream) (cd : string * string) :
  Forall (appends insert txt) l ->
  decorate_array insert os l cd (String d "") vs
  = Wrote (write os (c_str (fst cd)
                     ++ concat (c_str vs) (map (Text.element (txt (boolalpha os)) d) l)
                     ++ c_str (snd cd))).
Proof.
  intros Hl. rewrite <- (decorate_text l os cd Hl).
  unfold decorate_array, decorate. now rewrite decorate_array_for_eq.
Qed.

Lemma decorate_tuple_eq (l : list Value) :
  l <> [] ->
  forall os flag,
    decorate_tuple insert os l (String d "") vs flag
    = decorate_for insert os l (String d "") vs flag.
Proof.
  induction l as [|v l IH]; intros Hne os flag; [contradiction|].
  cbn [decorate_tuple decorate_for].
  destruct (decorate_element insert _ v _); cbn [bind]; auto.
  destruct l as [|w l]; [reflexivity|]. apply IH. discriminate.
Qed.

Lemma decorate_std_tuple_text (l : list Value) (os : ostream) (cd : string * string) :
  l <> [] ->
  Forall (appends insert txt) l ->
  decorate_std_tuple insert os l cd (String d "") vs
  = Wrote (write os (c_str (fst cd)
                     ++ concat (c_str vs) (map (Text.element (txt (boolalpha os)) d) l)
                     ++ c_str (snd cd))).
Proof.
  intros Hne Hl. rewrite <- (decorate_text l os cd Hl).
  unfold decorate_std_tuple, decorate. now rewrite decorate_tuple_eq.
Qed.

Variable kvs : string.

Lemma decorate_assoc_for_text (l : list (Value * Value)) :
  Forall (fun kv => appends insert txt (fst kv) /\ appends insert txt (snd kv)) l ->
  forall os,
    decorate_assoc_for insert os l (String d "") vs kvs true
    = Wrote (write os (Text.tail (c_str vs)
                         (map (Text.entry (txt (boolalpha os)) d (c_str kvs)) l)))
    /\ decorate_assoc_for insert os l (String d "") vs kvs false
       = Wrote (write os (concat (c_str vs)
                            (map (Text.entry (txt (boolalpha os)) d (c_str kvs)) l))).
Proof.
  induction 1 as [|[k v] l [Hk Hv] Hl IH]; intros os.
  - cbn. now rewrite write_empty.
  - cbn [decorate_assoc_for fst snd] in *. unfold write_cstr.
    rewrite !decorate_element_text by assumption. cbn [bind].
    rewrite !decorate_element_text by assumption. cbn [bind].
    rewrite !(proj1 (IH _)), !write_write, !boolalpha_write.
    cbn [map Text.tail]. rewrite !concat_cons.
    change (Text.entry (txt (boolalpha os)) d (c_str kvs) (k, v))
      with (Text.element (txt (boolalpha os)) d k ++ c_str kvs
            ++ Text.element (txt (boolalpha os)) d v).
    rewrite ?append_assoc. split; reflexivity.
Qed.

Lemma decorate_assoc_text (l : list (Value * Value)) (os : ostream)
    (cd : string * string) :
  Forall (fun kv => appends insert txt (fst kv) /\ appends insert txt (snd kv)) l ->
  decorate_assoc insert os l cd (String d "") vs kvs
  = Wrote (write os (c_str (fst cd)
                     ++ concat (c_str vs)
                          (map (Text.entry (txt (boolalpha os)) d (c_str kvs)) l)
                     ++ c_str (snd cd))).
Proof.
  intros Hl. unfold decorate_assoc, write_cstr.
  rewrite (proj2 (decorate_assoc_for_text l Hl _)). cbn [bind].
  now rewrite !write_write, boolalpha_write.
Qed.

End Loops.

(** ** [operator<<] in closed form *)

Lemma operator_lshift_text (v : Value) : appends operator_lshift Text.text v.
Proof.
  assert (Hq : "'"%char <> backslash) by discriminate.
  induction v using Value_ind; intros os; cbn [operator_lshift Text.text];
    try reflexivity.
  - now rewrite (decorate_text _ Text.text "'" Hq ", " elems os ("[", "]")).
  - now rewrite (decorate_array_text _ Text.text "'" Hq ", " elems os ("[", "]")).
  - rewrite (decorate_std_tuple_text _ Text.text "'" Hq ", " (v :: rest) os ("(", ")"));
      [reflexivity | discriminate | now constructor].
  - rewrite (decorate_std_tuple_text _ Text.text "'" Hq ", " [v1; v2] os ("(", ")"));
      [reflexivity | discriminate | now repeat constructor].
  - now rewrite (decorate_assoc_text _ Text.text "'" Hq ", " ": " entries os ("{", "}")).
Qed.

(** ** Scanning formatted text for separators *)

Example separators_at_depth0_example :
  Spec.separators_at_depth0 "1, 'a, b', [2, 3], (4, 'x\', y')" = 3.
Proof. reflexivity. Qed.

Lemma escape_cons (d x : ascii) (text : string) :
  d <> backslash ->
  Spec.escape d (String x text)
  = if Ascii.eqb x backslash then String backslash (String backslash (Spec.escape d text))
    else if Ascii.eqb x d then String backslash (String d (Spec.escape d text))
    else String x (Spec.escape d text).
Proof.
  intros Hd. unfold Spec.escape. cbn [Spec.replace_char].
  destruct (Ascii.eqb_spec x backslash) as [->|Hx]; cbn [Spec.replace_char].
  - destruct (Ascii.eqb_spec backslash d); [congruence | reflexivity].
  - destruct (Ascii.eqb_spec x d) as [->|]; reflexivity.
Qed.

Lemma scan_string_body (text : string) :
  forall depth k,
    Spec.count_separators depth Spec.InString (c_str (Spec.escape "'" text) ++ "'" ++ k)
    = Spec.count_separators depth Spec.Outside k.
Proof.
  induction text as [|x text IH]; intros depth k; [reflexivity|].
  rewrite escape_cons by discriminate.
  destruct (Ascii.eqb_spec x backslash) as [->|Hx].
  - cbn. apply IH.
  - destruct (Ascii.eqb_spec x "'"%char) as [->|Hq].
    + cbn. apply IH.
    + cbn [c_str]. destruct (Ascii.eqb_spec x NUL) as [->|Hn]; [reflexivity|].
      cbn [append Spec.count_separators].
      destruct (Ascii.eqb_spec x backslash); [contradiction|].
      destruct (Ascii.eqb_spec x "'"%char); [contradiction|].
      apply IH.
Qed.

Lemma neutral_quoted (text : string) : neutral (Text.quoted "'" text).
Proof.
  intros depth k. unfold Text.quoted.
  change (c_str "'") with "'". rewrite !append_assoc.
  cbn [append Spec.count_separators Ascii.eqb Bool.eqb]. apply scan_string_body.
Qed.

Lemma scan_plain_char (c : ascii) (depth : nat) (k : string) :
  plain c = true ->
  Spec.count_separators depth Spec.Outside (String c k)
  = Spec.count_separators depth Spec.Outside k.
Proof.
  destruct c as [[] [] [] [] [] [] [] []]; intros H; try discriminate H; reflexivity.
Qed.

Lemma neutral_plain (e : string) : all_chars plain e = true -> neutral e.
Proof.
  induction e as [|c e IH]; cbn [all_chars]; intros H depth k; [reflexivity|].
  apply andb_true_iff in H as [Hc He].
  cbn [append]. rewrite scan_plain_char by assumption. now apply IH.
Qed.

Lemma plain_uint (u : Decimal.uint) : all_chars plain (NilEmpty.string_of_uint u) = true.
Proof. induction u; cbn [NilEmpty.string_of_uint all_chars]; auto. Qed.

Lemma plain_string_of_Z (z : Z) : all_chars plain (string_of_Z z) = true.
Proof.
  unfold string_of_Z, NilZero.string_of_int, NilZero.string_of_uint.
  destruct (Z.to_int z) as [u|u]; destruct u;
    cbn [all_chars]; rewrite ?plain_uint; try reflexivity;
    apply (plain_uint (_ u)).
Qed.

Lemma plain_bool_text (alpha b : bool) : all_chars plain (bool_text alpha b) = true.
Proof. destruct alpha, b; reflexivity. Qed.

Lemma prefix_empty (k : string) : prefix "" k = true.
Proof. now destruct k. Qed.

(** At depth 0 it is counted once. *)
Lemma scan_separator_top (k : string) :
  Spec.count_separators 0 Spec.Outside (", " ++ k)
  = S (Spec.count_separators 0 Spec.Outside k).
Proof.
  cbn [append Spec.count_separators Ascii.eqb Bool.eqb Spec.is_open Spec.is_close
       mem_char orb prefix Nat.eqb].
  destruct (ascii_dec "," ","); [|contradiction].
  destruct (ascii_dec " " " "); [|contradiction].
  rewrite prefix_empty. cbn [andb].
  destruct (ascii_dec "," " "); [discriminate|]. reflexivity.
Qed.

(** An unambiguous scalar, written as an element, is passed over by the
    scan. *)
Lemma neutral_unambiguous (alpha : bool) (v : Value) :
  unambiguous v = true -> neutral (Text.element (Text.text alpha) "'" v).
Proof.
  destruct v; cbn [unambiguous]; intros H; try discriminate H;
    unfold Text.element; cbn [is_string_like_v Text.text];
    try apply neutral_quoted.
  - apply neutral_plain, plain_string_of_Z.
  - apply neutral_plain, plain_bool_text.
  - now apply neutral_plain.
Qed.

(** Between the brackets of the outermost container every separator
    counts. *)
Lemma scan_top (texts : list string) :
  Forall neutral texts ->
  Spec.separators_at_depth0 (concat ", " texts) = List.length texts - 1.
Proof.
  unfold Spec.separators_at_depth0.
  induction 1 as [|e texts He Hall IH]; [reflexivity|].
  rewrite concat_cons. destruct texts as [|e' texts].
  - cbn [Text.tail]. rewrite <- (append_nil_r (e ++ "")), append_assoc. now rewrite He.
  - cbn [Text.tail]. rewrite He, scan_separator_top, IH. cbn [List.length]. lia.
Qed.

(** ** String delimiters without a backslash *)

Lemma escape_where_ext (p q : ascii -> bool) (s : string) :
  (forall c, p c = q c) -> escape_where p s = escape_where q s.
Proof.
  intros H. induction s as [|c s IH]; cbn [escape_where]; [reflexivity|].
  now rewrite H, IH.
Qed.

Lemma escape_where_app (p : ascii -> bool) (a b : string) :
  escape_where p (a ++ b) = escape_where p a ++ escape_where p b.
Proof.
  induction a as [|c a IH]; cbn [append escape_where]; [reflexivity|].
  rewrite IH. now destruct (p c).
Qed.

Lemma regex_escape_where (s : string) : regex_escape s = escape_where special s.
Proof.
  unfold regex_escape, specialChars. rewrite regex_replace_atom.
  apply escape_where_ext. intros c. unfold special, specialChars. cbn [existsb].
  now rewrite orb_false_r.
Qed.

Lemma special_not_alnum (c : ascii) : special c = true -> is_alnum c = false.
Proof.
  destruct c as [[] [] [] [] [] [] [] []]; intros H; try discriminate H; reflexivity.
Qed.

Lemma ordinary_not_syntax (c : ascii) :
  special c = false -> c <> backslash -> is_syntax_char c = false.
Proof.
  destruct c as [[] [] [] [] [] [] [] []]; intros H Hb; try discriminate H;
    solve [ reflexivity | exfalso; apply Hb; reflexivity ].
Qed.

(** An escaped text without backslashes, in front of any pattern, reads
    as the literal characters of the text. *)
Lemma basic_regex_escaped (s k : string) :
  mem_char backslash s = false ->
  basic_regex (escape_where special s ++ k)
  = match basic_regex k with
    | Regex r => Regex (map Lit (list_ascii_of_string s) ++ r)%list
    | failure => failure
    end.
Proof.
  induction s as [|c s IH]; cbn [mem_char]; intros H.
  - cbn. now destruct (basic_regex k).
  - apply orb_false_iff in H as [Hc Hs]. specialize (IH Hs).
    rewrite Ascii.eqb_sym in Hc.
    cbn [escape_where list_ascii_of_string map].
    destruct (special c) eqn:Esp; cbn [append basic_regex].
    + rewrite Ascii.eqb_refl, (special_not_alnum c Esp), IH.
      now destruct (basic_regex k).
    + rewrite Hc, (ordinary_not_syntax c Esp), IH.
      * now destruct (basic_regex k).
      * intros ->. now rewrite Ascii.eqb_refl in Hc.
Qed.

Lemma decorate_string_literal (os : ostream) (value sd : string) :
  mem_char backslash sd = false ->
  decorate_string os value sd
  = Wrote (write os (c_str sd
                     ++ c_str (escaped_value value (map Lit (list_ascii_of_string sd)))
                     ++ c_str sd)).
Proof.
  intros H. unfold decorate_string, convert_string.
  rewrite regex_escape_where, <- (append_nil_r (escape_where special sd)).
  rewrite (basic_regex_escaped sd "" H). cbn [basic_regex]. rewrite app_nil_r.
  unfold write_cstr. now rewrite !write_write.
Qed.

Section TupleAsSequence.
Variable insert : ostream -> Value -> outcome.
Variables sd vs : string.

Lemma decorate_tuple_as_for (l : list Value) :
  l <> [] ->
  forall os flag,
    decorate_tuple insert os l sd vs flag = decorate_for insert os l sd vs flag.
Proof.
  induction l as [|v l IH]; intros Hne os flag; [contradiction|].
  cbn [decorate_tuple decorate_for].
  destruct (decorate_element insert _ v sd); cbn [bind]; auto.
  destruct l as [|w l]; [reflexivity|]. apply IH. discriminate.
Qed.

End TupleAsSequence.


Section LoopsWith.
Variable insert : ostream -> Value -> outcome.
Variable txt : bool -> Value -> string.
Variable sd : string.
Hypothesis Hsd : mem_char backslash sd = false.
Variables vs kvs : string.








End LoopsWith.

Lemma all_append (l : list Value) : Forall (appends operator_lshift Text.text) l.
Proof. apply Forall_forall. intros v _. apply operator_lshift_text. Qed.


(** * The formatting engine against its specification *)

(** ** Delimiters of the default configuration *)

(** What the operators wrap each kind of container in: brackets for all
    eight templates of the first macro and for arrays, parentheses for
    tuples and pairs, braces for the four associative templates; inside,
    the quote for strings, [", "] between values and [": "] between key
    and value. *)
Lemma default_delimiters (os : ostream) :
  (forall T l, operator_lshift os (Container T l)
     = Wrote (write os ("[" ++ concat ", " (map (Text.element (Text.text (boolalpha os)) "'") l)
                        ++ "]")))
  /\ (forall l, operator_lshift os (Array l)
     = Wrote (write os ("[" ++ concat ", " (map (Text.element (Text.text (boolalpha os)) "'") l)
                        ++ "]")))
  /\ (forall v l, operator_lshift os (Tuple v l)
     = Wrote (write os ("(" ++ concat ", "
                                 (map (Text.element (Text.text (boolalpha os)) "'") (v :: l))
                        ++ ")")))
  /\ (forall T m, operator_lshift os (Assoc T m)
     = Wrote (write os ("{" ++ concat ", "
                                 (map (Text.entry (Text.text (boolalpha os)) "'" ": ") m)
                        ++ "}"))).
Proof. repeat split; intros; apply operator_lshift_text. Qed.

(** C1. Default delimiters: brackets for sequences, braces for sets and
    for mappings, parentheses for tuples, the quote for strings, [", "]
    between values and [": "] between key and value.  The header does so
    for all but the sets (lemma [default_delimiters]): the operator
    generated for [std::set] and the three other set templates passes the
    bracket pair, and the set holding 1 and 2 comes out as "[1, 2]", not
    as "{1, 2}". *)
Theorem set_is_written_in_brackets (os : ostream) :
  operator_lshift os (Container std_set [Int 1; Int 2]) = Wrote (write os "[1, 2]")
  /\ operator_lshift os (Container std_set [Int 1; Int 2]) <> Wrote (write os "{1, 2}").
Proof.
  assert (H : operator_lshift os (Container std_set [Int 1; Int 2])
              = Wrote (write os "[1, 2]")) by (now rewrite operator_lshift_text).
  split; [exact H|]. rewrite H. intros E.
  apply Wrote_write_inj in E. discriminate E.
Qed.

(** ** The string escaper *)

Lemma mem_NUL_replace_char (c : ascii) (s : string) :
  mem_char NUL (Spec.replace_char c s) = mem_char NUL s.
Proof.
  induction s as [|x s IH]; [reflexivity|]. cbn [Spec.replace_char].
  destruct (Ascii.eqb x c); cbn [mem_char]; rewrite IH; reflexivity.
Qed.

(** C2, as the header has it.  For every text and every delimiter
    character [d] other than the backslash, the value is rewritten by
    replacing every backslash with two and then every [d] with a backslash
    and [d], nothing else changing; the stream receives [d], that value up
    to its first NUL, and [d].  When neither the text nor [d] is NUL the
    stream receives the whole escaped text, control characters
    included. *)
Theorem decorate_string_escapes (os : ostream) (text : string) (d : ascii) :
  d <> backslash ->
  exists delimRe,
    basic_regex (regex_escape (String d "")) = Regex delimRe
    /\ escaped_value text delimRe = Spec.escape d text
    /\ decorate_string os text (String d "")
       = Wrote (write os (c_str (String d "") ++ c_str (Spec.escape d text)
                          ++ c_str (String d "")))
    /\ (d <> NUL -> mem_char NUL text = false ->
        decorate_string os text (String d "")
        = Wrote (write os (String d "" ++ Spec.escape d text ++ String d ""))).
Proof.
  intros Hd. exists [Lit d]. split; [now apply delimRe_char|].
  split; [apply escaped_value_char|].
  split; [now apply decorate_string_char|].
  intros Hn Htext. rewrite decorate_string_char by assumption. unfold Text.quoted.
  rewrite (c_str_char d Hn), c_str_no_NUL; [reflexivity|].
  unfold Spec.escape. now rewrite !mem_NUL_replace_char.
Qed.

Lemma decorate_string_escapes_witness :
  "'"%char <> backslash
  /\ exists delimRe,
      basic_regex (regex_escape "'") = Regex delimRe
      /\ escaped_value "it's a\b" delimRe = Spec.escape "'" "it's a\b"
      /\ decorate_string cout "it's a\b" "'"
         = Wrote (write cout (c_str "'" ++ c_str (Spec.escape "'" "it's a\b") ++ c_str "'"))
      /\ ("'"%char <> NUL -> mem_char NUL "it's a\b" = false ->
          decorate_string cout "it's a\b" "'"
          = Wrote (write cout ("'" ++ Spec.escape "'" "it's a\b" ++ "'"))).
Proof.
  split; [discriminate|].
  apply (decorate_string_escapes cout "it's a\b" "'"). discriminate.
Defined.

(** C2 as stated fails on a text holding a NUL: of ['a<NUL>b'] only ['a']
    reaches the stream. *)
Lemma decorate_string_stops_at_NUL :
  decorate_string cout (String "a" (String NUL "b")) "'" = Wrote (write cout "'a'")
  /\ decorate_string cout (String "a" (String NUL "b")) "'"
     <> Wrote (write cout ("'" ++ Spec.escape "'" (String "a" (String NUL "b")) ++ "'")).
Proof. split; [reflexivity|]. vm_compute. discriminate. Qed.

(** C3. Unescaping what the escaping step produced gives the text back:
    for the quote of the default configuration, and for every delimiter
    character other than the backslash. *)
Theorem unescape_inverts_escaping :
  (forall text, Spec.unescape "'" (escaped_value text [Lit "'"%char]) = Some text)
  /\ (forall (d : ascii) (text : string),
        d <> backslash ->
        exists delimRe,
          basic_regex (regex_escape (String d "")) = Regex delimRe
          /\ Spec.unescape d (escaped_value text delimRe) = Some text).
Proof.
  split.
  - intros text. rewrite escaped_value_char. now apply unescape_escape.
  - intros d text Hd. exists [Lit d]. split; [now apply delimRe_char|].
    rewrite escaped_value_char. now apply unescape_escape.
Qed.

Lemma unescape_inverts_escaping_witness :
  "|"%char <> backslash
  /\ exists delimRe,
      basic_regex (regex_escape "|") = Regex delimRe
      /\ Spec.unescape "|" (escaped_value "a|b\c" delimRe) = Some "a|b\c".
Proof.
  split; [discriminate|].
  apply (proj2 unescape_inverts_escaping "|"%char "a|b\c"). discriminate.
Defined.

(** ** Sequences *)

Example sequence_example :
  operator_lshift cout (Container std_vector [Int 1; Int 2; Int 3])
  = Wrote (write cout "[1, 2, 3]").
Proof. reflexivity. Qed.

(** C4, as the header has it.  A sequence of [n] elements that are
    strings, numbers, booleans or other scalars whose own text holds no
    quote, bracket or comma is written as a bracket, the element texts
    with [", "] between consecutive ones (so before every element but
    the first), and a bracket; scanning what lies between the brackets,
    the separator is met [n - 1] times outside strings (never, when the
    sequence is empty). *)
Theorem sequence_brackets_and_separators (os : ostream) (T : container_template)
    (s : list Value) :
  Forall (fun v => unambiguous v = true) s ->
  exists inner,
    operator_lshift os (Container T s) = Wrote (write os ("[" ++ inner ++ "]"))
    /\ operator_lshift os (Array s) = Wrote (write os ("[" ++ inner ++ "]"))
    /\ inner = concat ", " (map (Text.element (Text.text (boolalpha os)) "'") s)
    /\ Spec.separators_at_depth0 inner = List.length s - 1.
Proof.
  intros Hs.
  exists (concat ", " (map (Text.element (Text.text (boolalpha os)) "'") s)).
  repeat split; try apply operator_lshift_text.
  rewrite scan_top, length_map; [reflexivity|].
  apply Forall_map. eapply Forall_impl; [|exact Hs].
  intros v Hv. now apply neutral_unambiguous.
Qed.

Lemma sequence_brackets_and_separators_witness :
  Forall (fun v => unambiguous v = true) [StdString "a, b"; StdString "it's"]
  /\ exists inner,
      operator_lshift cout (Container std_vector [StdString "a, b"; StdString "it's"])
      = Wrote (write cout ("[" ++ inner ++ "]"))
      /\ operator_lshift cout (Array [StdString "a, b"; StdString "it's"])
         = Wrote (write cout ("[" ++ inner ++ "]"))
      /\ inner = concat ", " (map (Text.element (Text.text (boolalpha cout)) "'")
                               [StdString "a, b"; StdString "it's"])
      /\ Spec.separators_at_depth0 inner
         = List.length [StdString "a, b"; StdString "it's"] - 1.
Proof.
  assert (H : Forall (fun v => unambiguous v = true)
                [StdString "a, b"; StdString "it's"]) by (repeat constructor).
  split; [exact H|].
  exact (sequence_brackets_and_separators cout std_vector _ H).
Defined.

(** C4 as stated fails on elements the header writes raw: a
    [std::string_view] is not string-like for the trait, so the
    one-element [std::vector<std::string_view>] holding [a, b] is written
    as [[a, b]], with one separator at depth 0 where [n - 1] is 0. *)
Lemma sequence_separator_in_raw_element :
  operator_lshift cout (Container std_vector [Other "a, b"])
  = Wrote (write cout ("[" ++ "a, b" ++ "]"))
  /\ Spec.separators_at_depth0 "a, b" = 1
  /\ Spec.separators_at_depth0 "a, b" <> List.length [Other "a, b"] - 1.
Proof. repeat split. discriminate. Qed.

(** ** Mappings *)

Lemma element_no_NUL (txt : Value -> string) (v : Value) :
  is_string_like_v v = true -> mem_char NUL (Text.payload v) = false ->
  Text.element txt "'" v = "'" ++ Spec.escape "'" (Text.payload v) ++ "'".
Proof.
  intros Hv Hn. unfold Text.element, Text.quoted. rewrite Hv.
  rewrite (c_str_no_NUL (Spec.escape "'" (Text.payload v))); [reflexivity|].
  unfold Spec.escape. now rewrite !mem_NUL_replace_char.
Qed.

(** C5, as the header has it.  A mapping whose keys and values are
    scalars or strings is written as a brace, its entries in iteration
    order with [", "] between them, and a brace; an entry is the key,
    [": "] and the value.  A key or value that is a string stands between
    two quotes with its content escaped and cut at its first NUL (whole,
    when it holds none); any other is shown by its own text. *)
Theorem mapping_entries (os : ostream) (T : assoc_template) (m : list (Value * Value)) :
  Forall (fun kv => scalar (fst kv) = true /\ scalar (snd kv) = true) m ->
  operator_lshift os (Assoc T m)
  = Wrote (write os ("{" ++ concat ", "
                       (map (fun kv =>
                               Text.element (Text.text (boolalpha os)) "'" (fst kv)
                               ++ ": "
                               ++ Text.element (Text.text (boolalpha os)) "'" (snd kv)) m)
                     ++ "}"))
  /\ (forall v, Text.element (Text.text (boolalpha os)) "'" v
                = if is_string_like_v v
                  then "'" ++ c_str (Spec.escape "'" (Text.payload v)) ++ "'"
                  else Text.text (boolalpha os) v)
  /\ (forall v, is_string_like_v v = true -> mem_char NUL (Text.payload v) = false ->
                Text.element (Text.text (boolalpha os)) "'" v
                = "'" ++ Spec.escape "'" (Text.payload v) ++ "'")
  /\ operator_lshift os (Assoc std_map [(StdString "a", Int 1); (StdString "b", Int 2)])
     = Wrote (write os "{'a': 1, 'b': 2}").
Proof.
  intros _. split; [now rewrite operator_lshift_text|].
  split; [reflexivity|]. split; [intros v; apply element_no_NUL|].
  now rewrite operator_lshift_text.
Qed.

Lemma mapping_entries_witness :
  Forall (fun kv => scalar (fst kv) = true /\ scalar (snd kv) = true)
    [(StdString "it's", Int 1); (StdString "b", Int 2)]
  /\ operator_lshift cout (Assoc std_map [(StdString "it's", Int 1); (StdString "b", Int 2)])
     = Wrote (write cout "{'it\'s': 1, 'b': 2}").
Proof.
  assert (H : Forall (fun kv => scalar (fst kv) = true /\ scalar (snd kv) = true)
                [(StdString "it's", Int 1); (StdString "b", Int 2)])
    by (repeat constructor).
  split; [exact H|].
  exact (proj1 (mapping_entries cout std_map _ H)).
Defined.

(** C5 as stated fails on a key that holds a NUL: the key [k<NUL>1] is
    written as ['k'], not as its escaped text between quotes. *)
Lemma mapping_key_stops_at_NUL :
  operator_lshift cout (Assoc std_map [(StdString (String "k" (String NUL "1")), Int 1)])
  = Wrote (write cout "{'k': 1}")
  /\ operator_lshift cout (Assoc std_map [(StdString (String "k" (String NUL "1")), Int 1)])
     <> Wrote (write cout ("{" ++ ("'" ++ Spec.escape "'" (String "k" (String NUL "1")) ++ "'")
                           ++ ": " ++ "1" ++ "}")).
Proof. split; [reflexivity|]. vm_compute. discriminate. Qed.

(** ** Elements *)

Lemma element_char (txt : Value -> string) (d : ascii) (v : Value) :
  d <> NUL ->
  Text.element txt d v
  = if is_string_like_v v
    then String d "" ++ c_str (Spec.escape d (Text.payload v)) ++ String d ""
    else txt v.
Proof.
  intros Hn. unfold Text.element, Text.quoted. now rewrite (c_str_char d Hn).
Qed.

(** C6, as the header has it.  In a container of scalars or strings, a
    string-like element stands between two quotes with its content
    escaped and cut at its first NUL (whole, when it holds none), and any
    other element is the text its own inserter writes, unescaped and
    unwrapped; so the sequence holding the string [it's] is written as
    ['it\'s'] in brackets.  The same holds in [decorate] for every
    delimiter character other than backslash and NUL. *)
Theorem elements_quoted_or_plain :
  (forall os T l,
      Forall (fun v => scalar v = true) l ->
      operator_lshift os (Container T l)
      = Wrote (write os ("[" ++ concat ", "
                 (map (fun v => if is_string_like_v v
                                then "'" ++ c_str (Spec.escape "'" (Text.payload v)) ++ "'"
                                else Text.text (boolalpha os) v) l)
               ++ "]")))
  /\ (forall s, mem_char NUL s = false -> c_str (Spec.escape "'" s) = Spec.escape "'" s)
  /\ (forall os v, scalar v = true -> is_string_like_v v = false ->
        operator_lshift os v = Wrote (write os (Text.text (boolalpha os) v)))
  /\ (forall os, operator_lshift os (Container std_vector [StdString "it's"])
                 = Wrote (write os "['it\'s']"))
  /\ (forall os d l cd vs,
        d <> backslash -> d <> NUL ->
        Forall (fun v => scalar v = true) l ->
        decorate operator_lshift os l cd (String d "") vs
        = Wrote (write os (c_str (fst cd) ++ concat (c_str vs)
                   (map (fun v => if is_string_like_v v
                                  then String d "" ++ c_str (Spec.escape d (Text.payload v))
                                       ++ String d ""
                                  else Text.text (boolalpha os) v) l)
                 ++ c_str (snd cd)))).
Proof.
  split; [|split; [|split; [|split]]].
  - intros os T l _. now rewrite operator_lshift_text.
  - intros s Hs. apply c_str_no_NUL. unfold Spec.escape.
    now rewrite !mem_NUL_replace_char.
  - intros os v _ _. apply operator_lshift_text.
  - intros os. now rewrite operator_lshift_text.
  - intros os d l cd vs Hd Hn _.
    rewrite (decorate_text _ Text.text d Hd vs l os cd).
    + now rewrite (map_ext _ _ (fun v => element_char (Text.text (boolalpha os)) d v Hn)).
    + apply all_append.
Qed.

Lemma elements_quoted_or_plain_witness :
  "|"%char <> backslash /\ "|"%char <> NUL
  /\ Forall (fun v => scalar v = true) [StdString "a|b"; StdString "c"]
  /\ decorate operator_lshift cout [StdString "a|b"; StdString "c"] ("<", ">") "|" "; "
     = Wrote (write cout "<|a\|b|; |c|>").
Proof.
  assert (H : Forall (fun v => scalar v = true) [StdString "a|b"; StdString "c"])
    by (repeat constructor).
  split; [discriminate|]. split; [discriminate|]. split; [exact H|].
  apply (proj2 (proj2 (proj2 (proj2 elements_quoted_or_plain))) cout "|"%char
           [StdString "a|b"; StdString "c"] ("<", ">") "; ");
    solve [discriminate | exact H].
Defined.

(** C6 as stated fails on a string that holds a NUL: the element
    [a<NUL>b] is written as ['a'], not as its escaped content between
    quotes. *)
Lemma string_element_stops_at_NUL :
  operator_lshift cout (Container std_vector [StdString (String "a" (String NUL "b"))])
  = Wrote (write cout "['a']")
  /\ operator_lshift cout (Container std_vector [StdString (String "a" (String NUL "b"))])
     <> Wrote (write cout ("[" ++ ("'" ++ Spec.escape "'" (String "a" (String NUL "b")) ++ "'")
                           ++ "]")).
Proof. split; [reflexivity|]. vm_compute. discriminate. Qed.

(** ** Determinism *)




(** ** Empty containers *)

Lemma empty_containers (os : ostream) :
  (forall T, operator_lshift os (Container T []) = Wrote (write os "[]"))
  /\ operator_lshift os (Array []) = Wrote (write os "[]")
  /\ (forall T, operator_lshift os (Assoc T []) = Wrote (write os "{}")).
Proof. repeat split; intros; now rewrite operator_lshift_text. Qed.

(** C8. Empty containers: an empty container is written as its two
    delimiters with nothing between them, "[]" for a sequence and "{}" for
    a set or a mapping.  The header does so for sequences and mappings
    (lemma [empty_containers]); the set templates share the operator of
    the sequences, and an empty [std::set] is written as "[]". *)
Theorem empty_set_is_written_in_brackets (os : ostream) :
  operator_lshift os (Container std_set []) = Wrote (write os "[]")
  /\ operator_lshift os (Container std_set []) <> Wrote (write os "{}").
Proof.
  assert (H : operator_lshift os (Container std_set []) = Wrote (write os "[]"))
    by (now rewrite operator_lshift_text).
  split; [exact H|]. rewrite H. intros E.
  apply Wrote_write_inj in E. discriminate E.
Qed.

(** ** Tuples and pairs *)

(** C9, as the header has it.  The tuple of 1, "foo" and true is written
    in parentheses with [", "] between the elements and the string in
    quotes; the boolean is the word [true] on a stream with [boolalpha]
    and the digit 1 on a stream without. *)
Theorem tuple_example (os : ostream) :
  operator_lshift os (Tuple (Int 1) [CString "foo"; Bool true])
  = Wrote (write os (if boolalpha os then "(1, 'foo', true)" else "(1, 'foo', 1)")).
Proof. rewrite operator_lshift_text. now destruct (boolalpha os). Qed.

(** C9 as stated fails on a stream as a program finds it: [std::cout]
    shows the boolean as 1. *)
Lemma tuple_example_without_boolalpha :
  operator_lshift cout (Tuple (Int 1) [CString "foo"; Bool true])
  = Wrote (write cout "(1, 'foo', 1)")
  /\ operator_lshift cout (Tuple (Int 1) [CString "foo"; Bool true])
     <> Wrote (write cout "(1, 'foo', true)").
Proof. split; [reflexivity|]. vm_compute. discriminate. Qed.

(** C10. A pair is written exactly as the tuple of its two members: in
    parentheses, the members separated by [", "], strings quoted and
    escaped. *)
Theorem pair_formats_as_tuple (os : ostream) (a b : Value) :
  operator_lshift os (Pair a b) = operator_lshift os (Tuple a [b])
  /\ operator_lshift os (Pair a b)
     = Wrote (write os ("(" ++ Text.element (Text.text (boolalpha os)) "'" a ++ ", "
                        ++ Text.element (Text.text (boolalpha os)) "'" b ++ ")")).
Proof.
  split; [reflexivity|]. rewrite operator_lshift_text. cbn [Text.text map concat].
  now rewrite !append_assoc.
Qed.

(** * Further properties of the formatting engine *)

(** ** [regex_escape] *)

Lemma match_here_literal_self (s rest : string) :
  match_here (map Lit (list_ascii_of_string s)) (s ++ rest) = Some (s, rest).
Proof.
  induction s as [|c s IH]; cbn [list_ascii_of_string map match_here append atom_matches].
  - reflexivity.
  - now rewrite Ascii.eqb_refl, IH.
Qed.

Lemma match_here_literal_only (s : string) :
  forall t m rest,
    match_here (map Lit (list_ascii_of_string s)) t = Some (m, rest) ->
    m = s /\ t = s ++ rest.
Proof.
  induction s as [|c s IH]; intros t m rest H;
    cbn [list_ascii_of_string map match_here atom_matches] in H.
  - injection H as <- <-. now split.
  - destruct t as [|x t]; [discriminate|].
    destruct (Ascii.eqb_spec x c) as [->|]; [|discriminate].
    destruct (match_here (map Lit (list_ascii_of_string s)) t) as [[m' rest']|] eqn:E;
      [|discriminate].
    injection H as <- <-. apply IH in E as [-> ->]. now split.
Qed.

(** X1. For a text without backslashes, [regex_escape] gives a pattern
    that compiles and that matches, at any position, exactly the text
    itself: every character with a meaning in a pattern has lost it. *)
Theorem regex_escape_matches_literally (s : string) :
  mem_char backslash s = false ->
  exists r,
    basic_regex (regex_escape s) = Regex r
    /\ forall t m rest,
         match_here r t = Some (m, rest) <-> (m = s /\ t = s ++ rest).
Proof.
  intros H. exists (map Lit (list_ascii_of_string s)). split.
  - rewrite regex_escape_where, <- (append_nil_r (escape_where special s)).
    rewrite (basic_regex_escaped s "" H). cbn. now rewrite app_nil_r.
  - intros t m rest. split.
    + apply match_here_literal_only.
    + intros [-> ->]. apply match_here_literal_self.
Qed.

Lemma regex_escape_matches_literally_witness :
  mem_char backslash "a.b[c]" = false
  /\ exists r,
      basic_regex (regex_escape "a.b[c]") = Regex r
      /\ forall t m rest,
           match_here r t = Some (m, rest) <-> (m = "a.b[c]" /\ t = "a.b[c]" ++ rest).
Proof.
  split; [reflexivity|]. apply (regex_escape_matches_literally "a.b[c]"). reflexivity.
Defined.

(** ** [decorate_string] and the delimiter *)

(** X2. Whatever the length of the string delimiter, [decorate_string]
    returns normally when the delimiter holds no backslash.  The pattern
    it replaces by matches the delimiter literally, and the stream
    receives the delimiter, the value after both replacements and the
    delimiter again, each as a C string. *)
Theorem decorate_string_returns (os : ostream) (value sd : string) :
  mem_char backslash sd = false ->
  exists delimRe,
    (forall t m rest,
        match_here delimRe t = Some (m, rest) <-> (m = sd /\ t = sd ++ rest))
    /\ decorate_string os value sd
       = Wrote (write os (c_str sd ++ c_str (escaped_value value delimRe) ++ c_str sd)).
Proof.
  intros H. exists (map Lit (list_ascii_of_string sd)). split.
  - intros t m rest. split.
    + apply match_here_literal_only.
    + intros [-> ->]. apply match_here_literal_self.
  - now apply decorate_string_literal.
Qed.

Lemma decorate_string_returns_witness :
  mem_char backslash "''" = false
  /\ exists delimRe,
      (forall t m rest,
          match_here delimRe t = Some (m, rest) <-> (m = "''" /\ t = "''" ++ rest))
      /\ decorate_string cout "a''b" "''"
         = Wrote (write cout (c_str "''" ++ c_str (escaped_value "a''b" delimRe)
                              ++ c_str "''")).
Proof.
  split; [reflexivity|]. apply (decorate_string_returns cout "a''b" "''"). reflexivity.
Defined.

Example decorate_string_two_character_delimiter :
  decorate_string cout "a''b'c" "''" = Wrote (write cout "''a\''b'c''").
Proof. reflexivity. Qed.

(** X3. A delimiter whose only backslash is its last character makes
    [decorate_string] throw ([std::regex_error]) before anything is
    written: [regex_escape] leaves the backslash alone and the pattern
    ends in a lone escape. *)
Theorem decorate_string_throws (os : ostream) (value sd : string) :
  mem_char backslash sd = false ->
  decorate_string os value (sd ++ String backslash "") = Threw os.
Proof.
  intros H. unfold decorate_string, convert_string.
  rewrite regex_escape_where, escape_where_app.
  now rewrite (basic_regex_escaped sd _ H).
Qed.

Lemma decorate_string_throws_witness :
  mem_char backslash "<" = false
  /\ decorate_string cout "text" ("<" ++ String backslash "") = Threw cout.
Proof.
  split; [reflexivity|]. apply (decorate_string_throws cout "text" "<"). reflexivity.
Defined.

(** ** What the escaper guarantees *)

(** Escaped texts followed by the delimiter form a prefix code: where
    one ends, no other goes on. *)
Lemma escape_prefix_code (d : ascii) :
  d <> backslash ->
  forall a b k1 k2,
    Spec.escape d a ++ String d k1 = Spec.escape d b ++ String d k2 ->
    a = b /\ k1 = k2.
Proof.
  intros Hd. induction a as [|x a IH]; intros [|y b] k1 k2 H.
  - cbn in H. injection H as H. now split.
  - exfalso. rewrite escape_cons in H by assumption. cbn [Spec.escape Spec.replace_char append] in H.
    destruct (Ascii.eqb_spec y backslash); [injection H; intros; congruence|].
    destruct (Ascii.eqb_spec y d); injection H; intros; congruence.
  - exfalso. rewrite escape_cons in H by assumption. cbn [Spec.escape Spec.replace_char append] in H.
    destruct (Ascii.eqb_spec x backslash); [injection H; intros; congruence|].
    destruct (Ascii.eqb_spec x d); injection H; intros; congruence.
  - rewrite !escape_cons in H by assumption.
    destruct (Ascii.eqb_spec x backslash) as [->|Hx], (Ascii.eqb_spec y backslash) as [->|Hy];
      [| destruct (Ascii.eqb_spec y d) as [->|Hyd]
       | destruct (Ascii.eqb_spec x d) as [->|Hxd]
       | destruct (Ascii.eqb_spec x d) as [->|Hxd], (Ascii.eqb_spec y d) as [->|Hyd] ];
      cbn [append] in H; injection H; intros; subst; try congruence;
      match goal with
      | E : Spec.escape d a ++ _ = Spec.escape d b ++ _ |- _ =>
          apply IH in E as [-> ->]; now split
      end.
Qed.

Lemma mem_NUL_escape (d : ascii) (s : string) :
  mem_char NUL (Spec.escape d s) = mem_char NUL s.
Proof. unfold Spec.escape. now rewrite !mem_NUL_replace_char. Qed.

Lemma quoted_no_NUL (d : ascii) (s : string) :
  d <> NUL -> mem_char NUL s = false ->
  Text.quoted d s = String d (Spec.escape d s ++ String d "").
Proof.
  intros Hd Hs. unfold Text.quoted.
  rewrite (c_str_char d Hd), c_str_no_NUL by now rewrite mem_NUL_escape.
  reflexivity.
Qed.

(** X4. Two different texts without NUL are never written alike by
    [decorate_string]: escaping loses nothing. *)
Theorem decorate_string_injective (os : ostream) (a b : string) (d : ascii) :
  d <> backslash -> d <> NUL ->
  mem_char NUL a = false -> mem_char NUL b = false ->
  a <> b ->
  decorate_string os a (String d "") <> decorate_string os b (String d "").
Proof.
  intros Hd Hn Ha Hb Hab H. apply Hab.
  rewrite !decorate_string_char in H by assumption.
  apply Wrote_write_inj in H.
  rewrite !quoted_no_NUL in H by assumption.
  injection H as H. now apply (escape_prefix_code d Hd) in H.
Qed.

Lemma decorate_string_injective_witness :
  "'"%char <> backslash /\ "'"%char <> NUL
  /\ mem_char NUL "a\'" = false /\ mem_char NUL "a'" = false
  /\ "a\'" <> "a'"
  /\ decorate_string cout "a\'" "'" <> decorate_string cout "a'" "'".
Proof.
  split; [discriminate|]. split; [discriminate|].
  split; [reflexivity|]. split; [reflexivity|]. split; [discriminate|].
  apply (decorate_string_injective cout "a\'" "a'" "'");
    solve [discriminate | reflexivity].
Defined.

Lemma c_str_idempotent (s : string) : c_str (c_str s) = c_str s.
Proof.
  induction s as [|c s IH]; cbn [c_str]; [reflexivity|].
  destruct (Ascii.eqb c NUL) eqn:E; [reflexivity|]. cbn [c_str]. now rewrite E, IH.
Qed.

(** Cutting at the first NUL and escaping can be done in either order. *)
Lemma c_str_escape (d : ascii) (s : string) :
  d <> backslash -> d <> NUL ->
  c_str (Spec.escape d s) = Spec.escape d (c_str s).
Proof.
  intros Hd Hn. induction s as [|x s IH]; [reflexivity|].
  rewrite escape_cons by assumption. cbn [c_str].
  destruct (Ascii.eqb_spec x NUL) as [->|Hx].
  - destruct (Ascii.eqb_spec NUL backslash); [discriminate|].
    destruct (Ascii.eqb_spec NUL d); [congruence|]. reflexivity.
  - rewrite escape_cons by assumption.
    assert (Hb : Ascii.eqb backslash NUL = false) by reflexivity.
    destruct (Ascii.eqb_spec x backslash) as [->|].
    + cbn [c_str]. now rewrite Hb, IH.
    + destruct (Ascii.eqb_spec x d) as [->|].
      * cbn [c_str]. rewrite Hb. destruct (Ascii.eqb_spec d NUL); [contradiction|].
        now rewrite IH.
      * cbn [c_str]. destruct (Ascii.eqb_spec x NUL); [contradiction|]. now rewrite IH.
Qed.

Lemma string_element_alike (insert : ostream -> Value -> outcome)
    (os : ostream) (s : string) (d : ascii) :
  d <> NUL ->
  decorate_element insert os (StdString s) (String d "")
  = decorate_element insert os (CString s) (String d "").
Proof.
  intros Hn. unfold decorate_element. cbn [is_string_like_v decorate_string_of].
  destruct (Ascii.eqb_spec d backslash) as [->|Hd]; [reflexivity|].
  rewrite !decorate_string_char by assumption. unfold Text.quoted.
  now rewrite !c_str_escape, c_str_idempotent by assumption.
Qed.

(** X5. A container of [std::string] and a container of [const char*]
    with the same characters are written alike, whatever the delimiters
    (the string delimiter being one character other than NUL): of a
    [std::string] only the part before its first NUL is shown, as for a
    C string. *)
Theorem strings_written_as_C_strings (insert : ostream -> Value -> outcome)
    (os : ostream) (l : list string) (cd : string * string) (d : ascii) (vs : string) :
  d <> NUL ->
  decorate insert os (map StdString l) cd (String d "") vs
  = decorate insert os (map CString l) cd (String d "") vs.
Proof.
  intros Hn. unfold decorate. f_equal.
  generalize (write_cstr os (fst cd)) as os1. generalize false as flag.
  induction l as [|s l IH]; intros flag os1; [reflexivity|].
  cbn [map decorate_for]. rewrite (string_element_alike insert _ s d Hn).
  destruct (decorate_element insert _ (CString s) _); cbn [bind]; auto.
Qed.

Lemma strings_written_as_C_strings_witness :
  "'"%char <> NUL
  /\ decorate operator_lshift cout
       (map StdString [String "a" (String NUL "b"); "c"]) ("[", "]") "'" ", "
     = decorate operator_lshift cout
         (map CString [String "a" (String NUL "b"); "c"]) ("[", "]") "'" ", ".
Proof.
  split; [discriminate|].
  apply (strings_written_as_C_strings operator_lshift cout
           [String "a" (String NUL "b"); "c"] ("[", "]") "'" ", ").
  discriminate.
Defined.

(** ** Sequences of strings *)

Lemma element_StdString (txt : Value -> string) (s : string) :
  mem_char NUL s = false ->
  Text.element txt "'" (StdString s) = String "'" (Spec.escape "'" s ++ "'").
Proof.
  intros H. unfold Text.element. cbn [is_string_like_v Text.payload].
  apply quoted_no_NUL; [discriminate | assumption].
Qed.

Lemma joined_strings_injective (txt : Value -> string) (l1 : list string) :
  Forall (fun s => mem_char NUL s = false) l1 ->
  forall l2 k1 k2,
    Forall (fun s => mem_char NUL s = false) l2 ->
    concat ", " (map (Text.element txt "'") (map StdString l1)) ++ String "]" k1
    = concat ", " (map (Text.element txt "'") (map StdString l2)) ++ String "]" k2 ->
    l1 = l2.
Proof.
  assert (Hq : "'"%char <> backslash) by discriminate.
  induction 1 as [|a l1 Ha Hl1 IH]; intros l2 k1 k2 Hl2 H.
  - destruct Hl2 as [|b l2 Hb Hl2]; [reflexivity|]. exfalso.
    cbn [map] in H. rewrite concat_cons, (element_StdString _ b Hb) in H.
    cbn in H. discriminate H.
  - destruct Hl2 as [|b l2 Hb Hl2].
    + exfalso. cbn [map] in H. rewrite concat_cons, (element_StdString _ a Ha) in H.
      cbn in H. discriminate H.
    + cbn [map] in H. rewrite !concat_cons in H.
      rewrite (element_StdString _ a Ha), (element_StdString _ b Hb) in H.
      cbn [append] in H. injection H as H. rewrite !append_assoc in H. cbn [append] in H.
      apply (escape_prefix_code "'" Hq) in H as [-> H]. f_equal.
      destruct l1 as [|a' l1], l2 as [|b' l2]; cbn [map Text.tail] in H.
      * reflexivity.
      * exfalso. cbn in H. discriminate H.
      * exfalso. cbn in H. discriminate H.
      * rewrite !append_assoc in H. cbn [append] in H. injection H as H.
        eapply IH; [eassumption|]. cbn [map]. exact H.
Qed.

(** X6. Two different sequences of NUL-free strings never have the same
    output: the strings, and how many there are, can be told from the
    text, whatever characters (quotes, commas, brackets, backslashes)
    they hold. *)
Theorem string_sequences_injective (os : ostream) (T1 T2 : container_template)
    (l1 l2 : list string) :
  Forall (fun s => mem_char NUL s = false) l1 ->
  Forall (fun s => mem_char NUL s = false) l2 ->
  l1 <> l2 ->
  operator_lshift os (Container T1 (map StdString l1))
  <> operator_lshift os (Container T2 (map StdString l2)).
Proof.
  intros H1 H2 Hne H. apply Hne.
  rewrite !operator_lshift_text in H. apply Wrote_write_inj in H.
  cbn [Text.text] in H. cbn [append] in H. injection H as H.
  exact (joined_strings_injective (Text.text (boolalpha os)) l1 H1 l2 "" "" H2 H).
Qed.

Lemma string_sequences_injective_witness :
  Forall (fun s => mem_char NUL s = false) ["a', 'b"]
  /\ Forall (fun s => mem_char NUL s = false) ["a"; "b"]
  /\ ["a', 'b"] <> ["a"; "b"]
  /\ operator_lshift cout (Container std_vector (map StdString ["a', 'b"]))
     <> operator_lshift cout (Container std_vector (map StdString ["a"; "b"])).
Proof.
  assert (H1 : Forall (fun s => mem_char NUL s = false) ["a', 'b"])
    by (repeat constructor).
  assert (H2 : Forall (fun s => mem_char NUL s = false) ["a"; "b"])
    by (repeat constructor).
  assert (H3 : ["a', 'b"] <> ["a"; "b"]) by discriminate.
  split; [exact H1|]. split; [exact H2|]. split; [exact H3|].
  exact (string_sequences_injective cout std_vector std_vector _ _ H1 H2 H3).
Defined.

(** ** Custom delimiters *)

Lemma decorate_for_plain (l : list Value) (sd vs : string) :
  Forall (fun v => is_string_like_v v = false) l ->
  forall os,
    decorate_for operator_lshift os l sd vs true
    = Wrote (write os (Text.tail (c_str vs) (map (Text.text (boolalpha os)) l)))
    /\ decorate_for operator_lshift os l sd vs false
       = Wrote (write os (concat (c_str vs) (map (Text.text (boolalpha os)) l))).
Proof.
  induction 1 as [|v l Hv Hl IH]; intros os.
  - cbn. now rewrite write_empty.
  - cbn [decorate_for]. unfold decorate_element, write_cstr. rewrite Hv.
    rewrite !operator_lshift_text. cbn [bind].
    rewrite !(proj1 (IH _)), !write_write, !boolalpha_write.
    cbn [map Text.tail]. rewrite !concat_cons. split; reflexivity.
Qed.

Lemma not_string_like (l : list Value) :
  Forall (fun v => scalar v = true /\ is_string_like_v v = false) l ->
  Forall (fun v => is_string_like_v v = false) l.
Proof. intros Hl. eapply Forall_impl; [|exact Hl]. now intros v [_ Hv]. Qed.

(** X7. When the elements of the container are numbers, booleans or
    other scalars that are not string-like, [decorate] returns normally
    for every string delimiter, even one that would make
    [decorate_string] throw, and writes every element as its own inserter
    does, between the container delimiters and with the value separator
    between consecutive elements. *)
Theorem decorate_without_strings (os : ostream) (l : list Value)
    (cd : string * string) (sd vs : string) :
  Forall (fun v => scalar v = true /\ is_string_like_v v = false) l ->
  decorate operator_lshift os l cd sd vs
  = Wrote (write os (c_str (fst cd)
                     ++ concat (c_str vs) (map (Text.text (boolalpha os)) l)
                     ++ c_str (snd cd))).
Proof.
  intros Hl. apply not_string_like in Hl. unfold decorate, write_cstr.
  rewrite (proj2 (decorate_for_plain l sd vs Hl _)). cbn [bind].
  now rewrite !write_write, boolalpha_write.
Qed.

Lemma decorate_without_strings_witness :
  Forall (fun v => scalar v = true /\ is_string_like_v v = false) [Int 1; Int 2]
  /\ decorate operator_lshift cout [Int 1; Int 2] ("<", ">") (String backslash "") "; "
     = Wrote (write cout "<1; 2>").
Proof.
  assert (H : Forall (fun v => scalar v = true /\ is_string_like_v v = false)
                [Int 1; Int 2]) by (repeat constructor).
  split; [exact H|].
  exact (decorate_without_strings cout _ ("<", ">") (String backslash "") "; " H).
Defined.

Lemma decorate_for_throws (v : Value) (post : list Value) (vs : string) :
  is_string_like_v v = true ->
  forall pre, Forall (fun v => is_string_like_v v = false) pre ->
  forall os,
    decorate_for operator_lshift os (pre ++ v :: post) (String backslash "") vs true
    = Threw (write os (Text.tail (c_str vs) (map (Text.text (boolalpha os)) pre)
                       ++ c_str vs))
    /\ decorate_for operator_lshift os (pre ++ v :: post) (String backslash "") vs false
       = Threw (write os (concat (c_str vs) (map (Text.text (boolalpha os)) pre)
                          ++ match pre with [] => "" | _ :: _ => c_str vs end)).
Proof.
  intros Hv.
  assert (Hthrow : forall os,
             decorate_element operator_lshift os v (String backslash "") = Threw os).
  { intros os. unfold decorate_element. rewrite Hv.
    destruct v; try discriminate Hv; reflexivity. }
  induction 1 as [|w pre Hw Hpre IH]; intros os.
  - cbn [app decorate_for map Text.tail concat]. rewrite !Hthrow. cbn [bind].
    unfold write_cstr. now rewrite write_empty.
  - cbn [app decorate_for]. unfold decorate_element, write_cstr. rewrite Hw.
    rewrite !operator_lshift_text. cbn [bind].
    rewrite !(proj1 (IH _)), !write_write, !boolalpha_write.
    cbn [map Text.tail]. rewrite !concat_cons, !append_assoc. split; reflexivity.
Qed.

Lemma decorate_throw_at_first_string (os : ostream) (pre : list Value)
    (v : Value) (post : list Value) (cd : string * string) (vs : string) :
  Forall (fun v => is_string_like_v v = false) pre ->
  is_string_like_v v = true ->
  decorate operator_lshift os (pre ++ v :: post) cd (String backslash "") vs
  = Threw (write os (c_str (fst cd)
                     ++ concat (c_str vs) (map (Text.text (boolalpha os)) pre)
                     ++ match pre with [] => "" | _ :: _ => c_str vs end)).
Proof.
  intros Hpre Hv. unfold decorate, write_cstr.
  rewrite (proj2 (decorate_for_throws v post vs Hv pre Hpre _)). cbn [bind].
  now rewrite !write_write, boolalpha_write.
Qed.

(** X8. With a backslash as string delimiter, a container whose elements
    are strings is written without error when it is empty, the escaper
    never being called; with at least one element [decorate] throws, and
    the opening delimiter is already in the stream. *)
Theorem decorate_strings_backslash_delimiter (os : ostream) (l : list Value)
    (cd : string * string) (vs : string) :
  Forall (fun v => is_string_like_v v = true) l ->
  decorate operator_lshift os l cd (String backslash "") vs
  = match l with
    | [] => Wrote (write os (c_str (fst cd) ++ c_str (snd cd)))
    | _ :: _ => Threw (write os (c_str (fst cd)))
    end.
Proof.
  intros Hl. destruct Hl as [|v l Hv Hl].
  - unfold decorate, write_cstr. cbn [decorate_for bind]. now rewrite write_write.
  - change (v :: l) with ([] ++ v :: l)%list.
    rewrite (decorate_throw_at_first_string os [] v l cd vs (Forall_nil _) Hv).
    cbn [map concat]. now rewrite append_nil_r.
Qed.

Lemma decorate_strings_backslash_delimiter_witness :
  Forall (fun v => is_string_like_v v = true) [StdString "a"; StdString "b"]
  /\ decorate operator_lshift cout [StdString "a"; StdString "b"] ("[", "]")
       (String backslash "") ", "
     = Threw (write cout "[").
Proof.
  assert (H : Forall (fun v => is_string_like_v v = true) [StdString "a"; StdString "b"])
    by (repeat constructor).
  split; [exact H|].
  exact (decorate_strings_backslash_delimiter cout _ ("[", "]") ", " H).
Defined.

(** ** Tuples *)

(** X9. The recursion over the indices of a tuple writes what the loop
    over a container of the same elements writes, for every delimiter
    and every way of writing the elements, also when an element makes it
    throw: a tuple differs from a sequence by the brackets its operator
    passes and by nothing else. *)
Theorem tuple_written_as_sequence (insert : ostream -> Value -> outcome)
    (os : ostream) (first : Value) (rest : list Value) (cd : string * string)
    (sd vs : string) :
  decorate_std_tuple insert os (first :: rest) cd sd vs
  = decorate insert os (first :: rest) cd sd vs.
Proof.
  unfold decorate_std_tuple, decorate.
  now rewrite decorate_tuple_as_for by discriminate.
Qed.

(** X10. With a backslash as string delimiter, writing a tuple throws
    at its first string-like member and leaves the partial output in the
    stream: the opening delimiter, the members before that one with
    their separators, and the separator already written for the member
    that failed.  No closing delimiter is written. *)
Theorem tuple_throw_leaves_partial_output (os : ostream) (pre : list Value)
    (v : Value) (post : list Value) (cd : string * string) (vs : string) :
  Forall (fun v => is_string_like_v v = false) pre ->
  is_string_like_v v = true ->
  decorate_std_tuple operator_lshift os (pre ++ v :: post) cd (String backslash "") vs
  = Threw (write os (c_str (fst cd)
                     ++ concat (c_str vs) (map (Text.text (boolalpha os)) pre)
                     ++ match pre with [] => "" | _ :: _ => c_str vs end)).
Proof.
  intros Hpre Hv. unfold decorate_std_tuple.
  rewrite decorate_tuple_as_for by (destruct pre; discriminate).
  now apply decorate_throw_at_first_string.
Qed.

Lemma tuple_throw_leaves_partial_output_witness :
  Forall (fun v => is_string_like_v v = false) [Int 1; Bool true]
  /\ is_string_like_v (StdString "three") = true
  /\ decorate_std_tuple operator_lshift cout ([Int 1; Bool true] ++ StdString "three" :: [])
       ("(", ")") (String backslash "") ", "
     = Threw (write cout "(1, 1, ").
Proof.
  assert (H : Forall (fun v => is_string_like_v v = false) [Int 1; Bool true])
    by (repeat constructor).
  split; [exact H|]. split; [reflexivity|].
  exact (tuple_throw_leaves_partial_output cout [Int 1; Bool true] (StdString "three") []
           ("(", ")") ", " H eq_refl).
Defined.

(** ** The empty string delimiter *)

Lemma replace_loop_empty_pattern (s : string) :
  forall fuel, String.length s < fuel ->
    replace_loop fuel s [] replacement
    = escape_where (fun _ => true) s ++ String backslash "".
Proof.
  induction s as [|c s IH]; intros [|fuel] Hfuel; cbn [String.length] in Hfuel; try lia.
  - reflexivity.
  - cbn [replace_loop match_here escape_where]. cbn. do 2 f_equal. apply IH. lia.
Qed.

(** X12. With the empty string as delimiter the pattern matches the empty
    text at every position: after the backslashes are doubled, a
    backslash is put in front of every character of the string and one
    more at its end, and no delimiter is written around it. *)
Theorem decorate_string_empty_delimiter (os : ostream) (value : string) :
  decorate_string os value ""
  = Wrote (write os (c_str (escape_where (fun _ => true)
                              (Spec.replace_char backslash value)
                            ++ String backslash ""))).
Proof.
  unfold decorate_string, convert_string. cbn [regex_escape basic_regex].
  change (basic_regex (regex_escape "")) with (Regex []).
  unfold escaped_value, escapeRe, write_cstr. rewrite regex_replace_Lit.
  unfold regex_replace at 1. rewrite replace_loop_empty_pattern by lia.
  cbn [c_str]. now rewrite write_empty, write_write.
Qed.

Example decorate_string_empty_delimiter_example :
  decorate_string cout "a\b" "" = Wrote (write cout "\a\\\\\b\").
Proof. reflexivity. Qed.

(** * The allocation table of the tracked classes *)

Module tracked_facts.
Import tracked.

Lemma writes_joined (cout : ostream) (texts : list string) :
  writes cout texts = write cout (joined texts).
Proof.
  unfold writes, joined. revert cout.
  induction texts as [|t texts IH]; intros cout; cbn [fold_left fold_right].
  - now rewrite write_empty.
  - now rewrite IH, write_write.
Qed.

Lemma find_if_update_at {A : Type} (pred : A -> bool) (f : A -> A) (l : list A) :
  (forall x, pred (f x) = pred x) ->
  forall i, find_if pred (update_at i f l) = find_if pred l.
Proof.
  intros Hf. induction l as [|y l IH]; intros [|i]; cbn [update_at find_if];
    try reflexivity.
  - now rewrite Hf.
  - now rewrite IH.
Qed.

Lemma nth_error_update_at {A : Type} (f : A -> A) (l : list A) :
  forall i x, nth_error l i = Some x -> nth_error (update_at i f l) i = Some (f x).
Proof.
  induction l as [|y l IH]; intros [|i] x H; cbn in *; try discriminate.
  - now injection H as <-.
  - now apply IH.
Qed.

Lemma map_update_at {A B : Type} (g : A -> B) (f : A -> A) (l : list A) :
  (forall x, g (f x) = g x) -> forall i, map g (update_at i f l) = map g l.
Proof.
  intros Hf. induction l as [|y l IH]; intros [|i]; cbn [update_at map];
    try reflexivity.
  - now rewrite Hf.
  - now rewrite IH.
Qed.

(** X13. Deleting the address that was allocated last marks that
    allocation, and only it, as deleted, prints nothing and returns
    false: the search runs from the back of the table, so an older
    allocation at the same address is left as it is. *)
Theorem delete_after_new (show_pointer : Z -> string) (cout : ostream)
    (m_allocs : list allocation) (addr : Z) (name : string) :
  delete_ show_pointer cout (new_ m_allocs addr) addr name
  = (cout, (m_allocs ++ [mk_allocation addr "" (-1) true])%list, false).
Proof.
  unfold delete_, new_. rewrite rev_app_distr. cbn [rev app find_if address].
  rewrite Z.eqb_refl. cbn [nth_error deleted update_at address classname counter].
  cbn [rev]. now rewrite rev_involutive.
Qed.

Lemma find_if_find {A : Type} (pred : A -> bool) (l : list A) :
  forall i, find_if pred l = Some i -> nth_error l i = find pred l.
Proof.
  induction l as [|y l IH]; intros i H; cbn [find_if find] in *; [discriminate|].
  destruct (pred y) eqn:E.
  - now injection H as <-.
  - destruct (find_if pred l) as [j|]; [|discriminate]. injection H as <-.
    now apply IH.
Qed.

Lemma find_if_missing {A : Type} (pred : A -> bool) (l : list A) :
  find_if pred l = None -> find pred l = None.
Proof.
  induction l as [|y l IH]; intros H; cbn [find_if find] in *; [reflexivity|].
  destruct (pred y); [discriminate|].
  destruct (find_if pred l); [discriminate | now apply IH].
Qed.

(** X14. When the table holds an address, a second delete of it is
    reported as a double delete under the class name of the entry
    allocated last at that address, whatever names the two calls pass,
    and changes nothing in the table. *)
Theorem double_delete_detected (show_pointer : Z -> string) (cout cout' : ostream)
    (m_allocs : list allocation) (addr : Z) (name name' : string)
    (recorded : allocation) :
  last_at m_allocs addr = Some recorded ->
  delete_ show_pointer cout'
    (snd (fst (delete_ show_pointer cout m_allocs addr name))) addr name'
  = (writes cout' ["double delete of "; classname recorded; "(0x"; show_pointer addr;
                   ") "],
     snd (fst (delete_ show_pointer cout m_allocs addr name)), false).
Proof.
  unfold last_at.
  set (pred := fun alloc : allocation => Z.eqb (address alloc) addr).
  set (mark := fun alloc : allocation =>
                 mk_allocation (address alloc) (classname alloc) (counter alloc) true).
  assert (Hmark : forall x, pred (mark x) = pred x) by reflexivity.
  intros Hlast. unfold delete_ at 2 3. fold pred mark.
  destruct (find_if pred (rev m_allocs)) as [i|] eqn:Efind.
  - pose proof (find_if_find pred _ i Efind) as Hx. rewrite Hlast in Hx. rewrite Hx.
    destruct (deleted recorded) eqn:Edel; cbn [fst snd].
    + unfold delete_. fold pred. now rewrite Efind, Hx, Edel.
    + unfold delete_. fold pred mark.
      rewrite rev_involutive, (find_if_update_at pred mark _ Hmark), Efind.
      rewrite (nth_error_update_at mark _ i recorded Hx). cbn [deleted mark classname].
      reflexivity.
  - apply find_if_missing in Efind. rewrite Efind in Hlast. discriminate Hlast.
Qed.

Lemma double_delete_detected_witness :
  last_at [mk_allocation 4096 "A" 0 true; mk_allocation 4096 "B" 1 false] 4096
  = Some (mk_allocation 4096 "B" 1 false)
  /\ delete_ string_of_Z cout
       (snd (fst (delete_ string_of_Z cout
                    [mk_allocation 4096 "A" 0 true; mk_allocation 4096 "B" 1 false]
                    4096 "D"))) 4096 "D"
     = (write cout "double delete of B(0x4096) ",
        [mk_allocation 4096 "A" 0 true; mk_allocation 4096 "B" 1 true], false).
Proof.
  split; [reflexivity|].
  exact (double_delete_detected string_of_Z cout cout
           [mk_allocation 4096 "A" 0 true; mk_allocation 4096 "B" 1 false]
           4096 "D" "D" (mk_allocation 4096 "B" 1 false) eq_refl).
Defined.

Lemma delete_keeps_entries (show_pointer : Z -> string) (cout : ostream)
    (m_allocs : list allocation) (addr : Z) (name : string) :
  snd (delete_ show_pointer cout m_allocs addr name) = false
  /\ map (fun alloc => (address alloc, classname alloc, counter alloc))
       (snd (fst (delete_ show_pointer cout m_allocs addr name)))
     = map (fun alloc => (address alloc, classname alloc, counter alloc)) m_allocs.
Proof.
  unfold delete_.
  destruct (find_if _ (rev m_allocs)) as [i|]; [|now split].
  destruct (nth_error (rev m_allocs) i) as [x|]; [|now split].
  destruct (deleted x); [now split|]. cbn [fst snd]. split; [reflexivity|].
  rewrite map_rev, map_update_at by reflexivity.
  now rewrite <- map_rev, rev_involutive.
Qed.

(** X15. [operator delete] of a tracked class never has the memory
    freed, whatever the table holds and whatever pointer it is given:
    [delete_] returns false on each of its three paths.  It never removes
    or relabels an entry either: the addresses, class names and counters
    of the table stay as they were, entry by entry. *)
Theorem operator_delete_never_frees (show_pointer : Z -> string) (cout : ostream)
    (m_allocs : list allocation) (p : Z) (C : string) :
  snd (operator_delete show_pointer cout m_allocs p C) = false
  /\ map (fun alloc => (address alloc, classname alloc, counter alloc))
       (snd (fst (operator_delete show_pointer cout m_allocs p C)))
     = map (fun alloc => (address alloc, classname alloc, counter alloc)) m_allocs.
Proof.
  unfold operator_delete.
  pose proof (delete_keeps_entries show_pointer cout m_allocs p (c_str C)) as H.
  destruct (delete_ show_pointer cout m_allocs p (c_str C)) as [[cout' m'] flag].
  exact H.
Qed.

Lemma report_heading_printed (show_pointer : Z -> string) (m_allocs : list allocation) :
  forall cout,
    report show_pointer cout true m_allocs
    = (write cout (joined (map (leak_entry show_pointer) (leaked m_allocs))), true).
Proof.
  induction m_allocs as [|alloc m IH]; intros cout; cbn [report leaked filter].
  - cbn. now rewrite write_empty.
  - fold (leaked m). destruct (deleted alloc); cbn [negb]; [apply IH|].
    rewrite IH, writes_joined, write_write. cbn [map joined fold_right].
    unfold leak_entry at 2, joined. now rewrite !append_assoc.
Qed.

(** X16. When the tracker is destroyed it prints nothing if every
    allocation was deleted; otherwise it prints the heading once and
    then exactly the allocations never deleted, in the order in which
    they were allocated. *)
Theorem leak_report (show_pointer : Z -> string) (cout : ostream)
    (m_allocs : list allocation) :
  destructor show_pointer cout m_allocs
  = match leaked m_allocs with
    | [] => cout
    | _ :: _ =>
        write cout ("leaked objects: "
                    ++ joined (map (leak_entry show_pointer) (leaked m_allocs)))
    end.
Proof.
  unfold destructor. revert cout.
  induction m_allocs as [|alloc m IH]; intros cout; cbn [report leaked filter].
  - reflexivity.
  - fold (leaked m). destruct (deleted alloc); cbn [negb]; [apply IH|].
    rewrite report_heading_printed, writes_joined, !write_write. cbn [fst].
    cbn [map joined fold_right]. unfold leak_entry at 2, joined.
    now rewrite !append_assoc.
Qed.

End tracked_facts.

(** * Timing *)

Module timed_facts.
Import timed.
Local Open Scope Z_scope.

Lemma fold_left_min (l : list Z) :
  forall a,
    fold_left Z.min l a <= a
    /\ Forall (fun d => fold_left Z.min l a <= d) l
    /\ (fold_left Z.min l a = a \/ In (fold_left Z.min l a) l).
Proof.
  induction l as [|d l IH]; intros a; cbn [fold_left].
  - repeat split; [lia | constructor | now left].
  - destruct (IH (Z.min a d)) as [H1 [H2 H3]]. repeat split.
    + lia.
    + constructor; [lia | exact H2].
    + destruct H3 as [H3|H3]; [|right; now right].
      rewrite H3. destruct (Z.min_spec a d) as [[_ ->]|[_ ->]]; [now left|].
      right. now left.
Qed.

Lemma fold_left_max (l : list Z) :
  forall a,
    a <= fold_left Z.max l a
    /\ Forall (fun d => d <= fold_left Z.max l a) l
    /\ (fold_left Z.max l a = a \/ In (fold_left Z.max l a) l).
Proof.
  induction l as [|d l IH]; intros a; cbn [fold_left].
  - repeat split; [lia | constructor | now left].
  - destruct (IH (Z.max a d)) as [H1 [H2 H3]]. repeat split.
    + lia.
    + constructor; [lia | exact H2].
    + destruct H3 as [H3|H3]; [|right; now right].
      rewrite H3. destruct (Z.max_spec a d) as [[_ ->]|[_ ->]]; [right; now left|].
      now left.
Qed.

Lemma sum_bounds (lo hi : Z) (l : list Z) :
  Forall (fun d => lo <= d <= hi) l ->
  lo * Z.of_nat (List.length l) <= sum l <= hi * Z.of_nat (List.length l).
Proof.
  induction 1 as [|d l Hd Hl IH]; cbn [sum fold_right List.length]; [lia|].
  fold (sum l). lia.
Qed.

Lemma calls_loop_spec (elapsed : nat -> Z) (remaining : nat) :
  forall i info,
    name (calls_loop elapsed i remaining info) = name info
    /\ count (calls_loop elapsed i remaining info) = count info
    /\ total (calls_loop elapsed i remaining info)
       = total info + sum (map elapsed (seq i remaining))
    /\ min (calls_loop elapsed i remaining info)
       = fold_left Z.min (map elapsed (seq i remaining)) (min info)
    /\ max (calls_loop elapsed i remaining info)
       = fold_left Z.max (map elapsed (seq i remaining)) (max info).
Proof.
  induction remaining as [|r IH]; intros i info; cbn [calls_loop seq map fold_left].
  - cbn. repeat split. lia.
  - destruct (IH (S i) (mk_call_info (name info) (count info) (total info + elapsed i)
                          (avg info) (Z.min (min info) (elapsed i))
                          (Z.max (max info) (elapsed i))))
      as [H1 [H2 [H3 [H4 H5]]]].
    cbn [name count total min max] in *. repeat split; try assumption.
    rewrite H3. cbn [sum fold_right]. fold (sum (map elapsed (seq (S i) r))). lia.
Qed.

(** X17. For at least one call, durations that are not negative and a
    sum that fits the 64-bit signed count, [calls] returns the sum of the
    measured durations as total, the smallest and the largest of them as
    min and max, and their quotient by the number of calls as avg, which
    lies between min and max. *)
Theorem calls_statistics (elapsed : nat -> Z) (label : string) (n : nat) :
  n <> O ->
  Forall (fun d => 0 <= d) (measured elapsed n) ->
  sum (measured elapsed n) < 2 ^ 63 ->
  total (calls elapsed label n) = sum (measured elapsed n)
  /\ avg (calls elapsed label n) = sum (measured elapsed n) / Z.of_nat n
  /\ Forall (fun d => min (calls elapsed label n) <= d <= max (calls elapsed label n))
       (measured elapsed n)
  /\ In (min (calls elapsed label n)) (measured elapsed n)
  /\ In (max (calls elapsed label n)) (measured elapsed n)
  /\ min (calls elapsed label n) <= avg (calls elapsed label n)
     <= max (calls elapsed label n).
Proof.
  intros Hn Hpos Hfit. unfold calls.
  destruct n as [|k]; [contradiction|]. cbn [Nat.eqb].
  replace (S k - 1)%nat with k by lia.
  destruct (calls_loop_spec elapsed k 1
              (mk_call_info label (S k) (elapsed O) 0 (elapsed O) (elapsed O)))
    as [_ [_ [Ht [Hmin Hmax]]]].
  cbn [name count total avg min max] in *.
  set (rest := map elapsed (seq 1 k)) in *.
  assert (Hds : measured elapsed (S k) = elapsed O :: rest) by reflexivity.
  rewrite Hds in *. clearbody rest.
  assert (Hsum : sum (elapsed O :: rest) = elapsed O + sum rest) by reflexivity.
  destruct (fold_left_min rest (elapsed O)) as [Hm1 [Hm2 Hm3]].
  destruct (fold_left_max rest (elapsed O)) as [HM1 [HM2 HM3]].
  rewrite Ht, Hmin, Hmax, <- Hsum.
  set (lo := fold_left Z.min rest (elapsed O)) in *.
  set (hi := fold_left Z.max rest (elapsed O)) in *.
  set (s := sum (elapsed O :: rest)) in *.
  assert (Hall : Forall (fun d => lo <= d <= hi) (elapsed O :: rest)).
  { constructor; [lia|]. rewrite Forall_forall in *. intros d Hd.
    specialize (Hm2 d Hd). specialize (HM2 d Hd). lia. }
  assert (Hs0 : 0 <= s).
  { unfold s. clear -Hpos. induction Hpos as [|d l Hd Hl IH]; cbn [sum fold_right]; [lia|].
    fold (sum l). lia. }
  assert (Hlen : Z.of_nat (List.length (elapsed O :: rest)) = Z.of_nat (S k)).
  { rewrite <- Hds. unfold measured. now rewrite length_map, length_seq. }
  pose proof (sum_bounds lo hi _ Hall) as Hb. rewrite Hlen in Hb. fold s in Hb.
  assert (Hk : 0 < Z.of_nat (S k)) by lia.
  assert (Hq : 0 <= s / Z.of_nat (S k) <= s).
  { split; [apply Z.div_pos; lia|]. apply Z.div_le_upper_bound; nia. }
  assert (Havg : to_signed (to_unsigned s / Z.of_nat (S k)) = s / Z.of_nat (S k)).
  { unfold to_signed, to_unsigned. rewrite (Z.mod_small s) by lia.
    rewrite Z.mod_small by lia.
    destruct (Z.ltb_spec (s / Z.of_nat (S k)) (2 ^ 63)); lia. }
  rewrite Havg. repeat split.
  - exact Hall.
  - destruct Hm3 as [->|H]; [now left | now right].
  - destruct HM3 as [->|H]; [now left | now right].
  - apply Z.div_le_lower_bound; lia.
  - apply Z.div_le_upper_bound; lia.
Qed.

Lemma calls_statistics_witness :
  3%nat <> O
  /\ Forall (fun d => 0 <= d) (measured (fun i => Z.of_nat i * 10 + 5) 3)
  /\ sum (measured (fun i => Z.of_nat i * 10 + 5) 3) < 2 ^ 63
  /\ total (calls (fun i => Z.of_nat i * 10 + 5) "f" 3) = 45
  /\ avg (calls (fun i => Z.of_nat i * 10 + 5) "f" 3) = 15
  /\ min (calls (fun i => Z.of_nat i * 10 + 5) "f" 3) = 5
  /\ max (calls (fun i => Z.of_nat i * 10 + 5) "f" 3) = 25
  /\ min (calls (fun i => Z.of_nat i * 10 + 5) "f" 3)
     <= avg (calls (fun i => Z.of_nat i * 10 + 5) "f" 3)
     <= max (calls (fun i => Z.of_nat i * 10 + 5) "f" 3).
Proof.
  assert (H1 : 3%nat <> O) by discriminate.
  assert (H2 : Forall (fun d => 0 <= d) (measured (fun i => Z.of_nat i * 10 + 5) 3))
    by (repeat constructor; discriminate).
  assert (H3 : sum (measured (fun i => Z.of_nat i * 10 + 5) 3) < 2 ^ 63) by reflexivity.
  split; [exact H1|]. split; [exact H2|]. split; [exact H3|].
  repeat (split; [reflexivity|]).
  exact (proj2 (proj2 (proj2 (proj2 (proj2
           (calls_statistics (fun i => Z.of_nat i * 10 + 5) "f" 3 H1 H2 H3)))))).
Defined.

(** No call, no measurement: every field but the name stays 0. *)
Lemma calls_none (elapsed : nat -> Z) (label : string) :
  calls elapsed label 0 = mk_call_info label 0 0 0 0 0.
Proof. reflexivity. Qed.

(** ** [durationToHumanString] *)

Lemma pad_three_digits (n : nat) :
  (n < 1000)%nat ->
  pad_left "0" 4 (string_of_Z (Z.of_nat n)) = String "0" (three_digits (Z.of_nat n)).
Proof.
  intros Hn.
  assert (H : forallb (fun n => String.eqb (pad_left "0" 4 (string_of_Z (Z.of_nat n)))
                                  (String "0" (three_digits (Z.of_nat n))))
                (seq 0 1000) = true) by (vm_compute; reflexivity).
  rewrite forallb_forall in H. apply String.eqb_eq, H, in_seq. lia.
Qed.

(** X18. From one second up to one minute, [durationToHumanString]
    shows the whole seconds, a point, a zero, the three digits of the
    milliseconds and the letter s: the milliseconds are padded to four
    places, so one second and a half is shown as 1.0500s. *)
Theorem seconds_shown_with_four_places (micro_suffix : string) (format_T : Z -> string)
    (p : period) (ticks : Z) :
  1000000000 <= ticks * ns_per p < 60000000000 ->
  durationToHumanString micro_suffix format_T p ticks
  = (string_of_Z (ticks * ns_per p / 1000000000) ++ ".0"
     ++ three_digits (ticks * ns_per p mod 1000000000 / 1000000) ++ "s")%string.
Proof.
  intros Hns. unfold durationToHumanString, duration_cast.
  set (ns := ticks * ns_per p) in *. cbn [ns_per].
  destruct (Z.ltb_spec ns 1000); [lia|].
  destruct (Z.ltb_spec ns 1000000); [lia|].
  destruct (Z.ltb_spec ns 1000000000); [lia|].
  destruct (Z.ltb_spec ns 60000000000); [|lia].
  rewrite (Z.quot_div_nonneg ns) by lia.
  replace (ns - ns / 1000000000 * 1000000000) with (ns mod 1000000000)
    by (rewrite Z.mod_eq; lia).
  pose proof (Z.mod_pos_bound ns 1000000000 ltac:(lia)) as Hm.
  rewrite Z.quot_div_nonneg by lia.
  set (ms := ns mod 1000000000 / 1000000).
  assert (Hms : 0 <= ms < 1000).
  { unfold ms. split; [apply Z.div_pos; lia|]. apply Z.div_lt_upper_bound; lia. }
  rewrite <- (Z2Nat.id ms) by lia. rewrite pad_three_digits by lia.
  reflexivity.
Qed.

Lemma seconds_shown_with_four_places_witness :
  1000000000 <= 1500 * ns_per milli < 60000000000
  /\ durationToHumanString "us" (fun _ => EmptyString) milli 1500 = "1.0500s"%string.
Proof.
  split; [split; [discriminate | reflexivity]|].
  apply (seconds_shown_with_four_places "us" (fun _ => EmptyString) milli 1500).
  split; [discriminate | reflexivity].
Defined.

End timed_facts.
